(** * us-visa-appointment: a shallow embedding of [usappointment.js]

    The script drives a headless browser through a login form, queries the
    portal for open appointment days and tells the user when the first day
    offered is earlier than the one already held.

    The embedding follows the source function by function.  Every [await]ed
    call into a collaborator (puppeteer, axios, timers) is a request answered
    by an environment that decides the result and how long the call takes;
    the program threads a world made of a logical clock in milliseconds and
    the chronological trace of everything it did.  Awaited promises are
    assumed to settle: an environment always answers after a finite delay. *)

From Stdlib Require Import ZArith NArith List String Ascii Bool Lia QArith.
From Stdlib Require Import DecimalString.
Import ListNotations.
Open Scope string_scope.
Open Scope Z_scope.

(** ** The JavaScript runtime, as far as the script uses it *)

Module JS.

(** *** Strings *)

Definition dquote : string := String (ascii_of_nat 34) EmptyString.
Definition backslash : string := String (ascii_of_nat 92) EmptyString.

(** [a.join(sep)] on an array of strings. *)
Fixpoint join (sep : string) (l : list string) : string :=
  match l with
  | [] => ""
  | [x] => x
  | x :: rest => x ++ sep ++ join sep rest
  end.

(** [hay.includes(needle)]. *)
Fixpoint includes (needle hay : string) : bool :=
  String.prefix needle hay ||
  match hay with
  | EmptyString => false
  | String _ rest => includes needle rest
  end.

(** [ToString] of a value that is a string or [undefined]. *)
Definition str (v : option string) : string :=
  match v with
  | Some s => s
  | None => "undefined"
  end.

(** [!v] for a value that is a string or [undefined]. *)
Definition falsy_str (v : option string) : bool :=
  match v with
  | None => true
  | Some EmptyString => true
  | Some _ => false
  end.

Definition dec (n : Z) : string := NilZero.string_of_uint (N.to_uint (Z.to_N n)).

(** Decimal rendering padded on the left with zeros to [width] digits. *)
Fixpoint zeros (n : nat) : string :=
  match n with
  | O => ""
  | S k => "0" ++ zeros k
  end.

Definition pad (width : nat) (n : Z) : string :=
  let s := dec n in zeros (width - String.length s) ++ s.

(** *** JSON.stringify on strings and arrays of strings *)

Definition hexdigit (n : nat) : string :=
  String (nth n (list_ascii_of_string "0123456789abcdef") "0"%char) EmptyString.

Definition quote_char (c : ascii) : string :=
  let n := nat_of_ascii c in
  if Nat.eqb n 34 then backslash ++ dquote
  else if Nat.eqb n 92 then backslash ++ backslash
  else if Nat.eqb n 8 then backslash ++ "b"
  else if Nat.eqb n 12 then backslash ++ "f"
  else if Nat.eqb n 10 then backslash ++ "n"
  else if Nat.eqb n 13 then backslash ++ "r"
  else if Nat.eqb n 9 then backslash ++ "t"
  else if Nat.ltb n 32 then
    backslash ++ "u00" ++ hexdigit (Nat.div n 16) ++ hexdigit (Nat.modulo n 16)
  else String c EmptyString.

Fixpoint quote_body (s : string) : string :=
  match s with
  | EmptyString => ""
  | String c rest => quote_char c ++ quote_body rest
  end.

Definition stringify_string (s : string) : string :=
  dquote ++ quote_body s ++ dquote.

Definition stringify_array (items : list string) : string :=
  "[" ++ join "," items ++ "]".

(** *** Values and truthiness *)

(** What a remote handle points at inside the page. *)
Inductive Remote : Type :=
  | RUndefined
  | RBool (b : bool)
  | RNumber (n : Z)
  | RString (s : string).

(** A puppeteer [JSHandle]: a local object standing for a value that lives in
    the page. *)
Record JSHandle : Type := MkJSHandle { remote : Remote }.

Inductive Value : Type :=
  | VUndefined
  | VNull
  | VBool (b : bool)
  | VNumber (n : Z)
  | VString (s : string)
  | VObject (h : JSHandle).

(** [ToBoolean]: every object is truthy, whatever it stands for. *)
Definition truthy (v : Value) : bool :=
  match v with
  | VUndefined => false
  | VNull => false
  | VBool b => b
  | VNumber n => negb (n =? 0)
  | VString s => negb (String.length s =? 0)%nat
  | VObject _ => true
  end.

(** *** Errors *)

(** A thrown value: the constructor name and the message. *)
Record Error : Type := MkError { name : string; message : string }.

(** [new Error(msg)]. *)
Definition error (msg : string) : Error := MkError "Error" msg.

(** *** Timers *)

(** The delay a timer really gets: Node sets a delay below 1 or above
    2147483647 to 1. *)
Definition timer_delay (ms : Z) : Z :=
  if (ms <? 1) || (2147483647 <? ms) then 1 else ms.

(** *** Date (ECMA-262, Date objects) *)

Definition msPerDay : Z := 86400000.
Definition Day (t : Z) : Z := t / msPerDay.
Definition TimeWithinDay (t : Z) : Z := t mod msPerDay.

Definition DaysInYear (y : Z) : Z :=
  if negb (y mod 4 =? 0) then 365
  else if negb (y mod 100 =? 0) then 366
  else if negb (y mod 400 =? 0) then 365
  else 366.

Definition DayFromYear (y : Z) : Z :=
  365 * (y - 1970) + (y - 1969) / 4 - (y - 1901) / 100 + (y - 1601) / 400.

(** The largest [y] with [DayFromYear y <= Day t]: an estimate from the mean
    year length, corrected by one year either way. *)
Definition YearFromDay (d : Z) : Z :=
  let y := 1970 + (d * 400) / 146097 in
  if d <? DayFromYear y then y - 1
  else if DayFromYear (y + 1) <=? d then y + 1
  else y.

Definition YearFromTime (t : Z) : Z := YearFromDay (Day t).
Definition InLeapYear (t : Z) : Z :=
  if DaysInYear (YearFromTime t) =? 366 then 1 else 0.
Definition DayWithinYear (t : Z) : Z := Day t - DayFromYear (YearFromTime t).

(** Days before the start of month [m] (0 = January) in a year whose leap
    flag is [leap]. *)
Definition DaysBeforeMonth (leap m : Z) : Z :=
  match m with
  | 0 => 0
  | 1 => 31
  | 2 => 59 + leap
  | 3 => 90 + leap
  | 4 => 120 + leap
  | 5 => 151 + leap
  | 6 => 181 + leap
  | 7 => 212 + leap
  | 8 => 243 + leap
  | 9 => 273 + leap
  | 10 => 304 + leap
  | 11 => 334 + leap
  | _ => 365 + leap
  end.

Definition MonthFromTime (t : Z) : Z :=
  let d := DayWithinYear t in
  let leap := InLeapYear t in
  if d <? 31 then 0
  else if d <? 59 + leap then 1
  else if d <? 90 + leap then 2
  else if d <? 120 + leap then 3
  else if d <? 151 + leap then 4
  else if d <? 181 + leap then 5
  else if d <? 212 + leap then 6
  else if d <? 243 + leap then 7
  else if d <? 273 + leap then 8
  else if d <? 304 + leap then 9
  else if d <? 334 + leap then 10
  else 11.

Definition DateFromTime (t : Z) : Z :=
  DayWithinYear t - DaysBeforeMonth (InLeapYear t) (MonthFromTime t) + 1.

Definition WeekDay (t : Z) : Z := (Day t + 4) mod 7.

Definition HourFromTime (t : Z) : Z := (t / 3600000) mod 24.
Definition MinFromTime (t : Z) : Z := (t / 60000) mod 60.
Definition SecFromTime (t : Z) : Z := (t / 1000) mod 60.

(** [MakeDay(year, month, date)] with [month] counted from 0. *)
Definition MakeDay (year month date : Z) : Z :=
  let ym := year + month / 12 in
  let mn := month mod 12 in
  let leap := if DaysInYear ym =? 366 then 1 else 0 in
  DayFromYear ym + DaysBeforeMonth leap mn + date - 1.

Definition weekday_name (d : Z) : string :=
  nth (Z.to_nat d) ["Sun"; "Mon"; "Tue"; "Wed"; "Thu"; "Fri"; "Sat"] "".

Definition month_name (m : Z) : string :=
  nth (Z.to_nat m)
    ["Jan"; "Feb"; "Mar"; "Apr"; "May"; "Jun";
     "Jul"; "Aug"; "Sep"; "Oct"; "Nov"; "Dec"] "".

(** What the host decides about dates: the offset of local time from UTC at
    a given instant, the name it prints for the zone, and how it reads a
    date string that is not in the ISO date form. *)
Record Host : Type := MkHost {
  LocalTZA : Z -> Z;
  tzName : Z -> string;
  legacyParse : string -> option Z
}.

(** A Date object: its time value, [None] for NaN (Invalid Date). *)
Definition Date : Type := option Z.

Definition digit (c : ascii) : option Z :=
  let n := Z.of_nat (nat_of_ascii c) in
  if (48 <=? n) && (n <=? 57) then Some (n - 48) else None.

Definition is_dash (c : ascii) : bool := Nat.eqb (nat_of_ascii c) 45.

(** The date-only ISO form [YYYY-MM-DD], read as UTC midnight.  A month
    outside 1..12 or a day the month does not have is an illegal value. *)
Definition parse_iso_date (s : string) : option Z :=
  match list_ascii_of_string s with
  | [y1; y2; y3; y4; s1; m1; m2; s2; d1; d2] =>
      match digit y1, digit y2, digit y3, digit y4,
            digit m1, digit m2, digit d1, digit d2 with
      | Some a, Some b, Some c, Some d, Some e, Some f, Some g, Some h =>
          let year := 1000 * a + 100 * b + 10 * c + d in
          let month := 10 * e + f in
          let day := 10 * g + h in
          let leap := if DaysInYear year =? 366 then 1 else 0 in
          if is_dash s1 && is_dash s2
             && (1 <=? month) && (month <=? 12) && (1 <=? day)
             && (day <=? DaysBeforeMonth leap month
                          - DaysBeforeMonth leap (month - 1))
          then Some (MakeDay year (month - 1) day * msPerDay)
          else None
      | _, _, _, _, _, _, _, _ => None
      end
  | _ => None
  end.

(** [Date.parse]: the ISO form first, then whatever the host makes of it. *)
Definition Date_parse (host : Host) (s : string) : Date :=
  match parse_iso_date s with
  | Some t => Some t
  | None => legacyParse host s
  end.

(** [new Date(v)] for [v] a string or [undefined]. *)
Definition new_Date (host : Host) (v : option string) : Date :=
  match v with
  | Some s => Date_parse host s
  | None => None
  end.

(** [a < b] on two Date objects: both are turned into numbers, and any
    comparison with NaN is false. *)
Definition Date_lt (a b : Date) : bool :=
  match a, b with
  | Some x, Some y => x <? y
  | _, _ => false
  end.

Definition LocalTime (host : Host) (t : Z) : Z := t + LocalTZA host t.

Definition year_string (y : Z) : string :=
  if y <? 0 then "-" ++ pad 4 (- y) else pad 4 y.

(** [DateString(tv)]: weekday, month, day and year of the local time. *)
Definition DateString (host : Host) (tv : Z) : string :=
  let t := LocalTime host tv in
  weekday_name (WeekDay t) ++ " " ++ month_name (MonthFromTime t) ++ " "
  ++ pad 2 (DateFromTime t) ++ " " ++ year_string (YearFromTime t).

Definition TimeString (host : Host) (tv : Z) : string :=
  let t := LocalTime host tv in
  pad 2 (HourFromTime t) ++ ":" ++ pad 2 (MinFromTime t) ++ ":"
  ++ pad 2 (SecFromTime t) ++ " GMT".

Definition TimeZoneString (host : Host) (tv : Z) : string :=
  let offset := LocalTZA host tv in
  let a := Z.abs offset in
  (if 0 <=? offset then "+" else "-")
  ++ pad 2 (HourFromTime a) ++ pad 2 (MinFromTime a)
  ++ " (" ++ tzName host tv ++ ")".

(** [d.toDateString()]. *)
Definition toDateString (host : Host) (d : Date) : string :=
  match d with
  | None => "Invalid Date"
  | Some tv => DateString host tv
  end.

(** [d.toString()], as used by a template literal. *)
Definition Date_toString (host : Host) (d : Date) : string :=
  match d with
  | None => "Invalid Date"
  | Some tv =>
      DateString host tv ++ " " ++ TimeString host tv ++ TimeZoneString host tv
  end.

(** A host whose local time is UTC and whose fallback parser reads no
    string: it answers as Node does under [TZ=UTC] for the strings of the
    ISO date form and for those no engine reads as a date; the strings V8's
    fallback would still read (a 29 February of a common year, fields of a
    single digit) are [Invalid Date] here. *)
Definition utc : Host :=
  MkHost (fun _ => 0) (fun _ => "Coordinated Universal Time") (fun _ => None).

End JS.

(** ** Collaborators: what the script asks of puppeteer and axios *)

Definition Browser : Type := nat.
Definition Page : Type := nat.
Definition ElementHandle : Type := nat.

Record Cookie : Type := MkCookie { cookie_name : string; cookie_value : string }.

(** One entry of the portal's answer; only its [date] field is read. *)
Record Slot : Type := MkSlot { date : string }.

(** The options object [{ timeout, visible }] given to every lookup. *)
Record WaitOptions : Type := MkWaitOptions { timeout : Z; visible : bool }.

(** What a lookup starts from: the frame (here always the page) or an
    element found by the previous step. *)
Inductive Root : Type :=
  | OnFrame (frame : Page)
  | OnElement (element : ElementHandle).

(** Statements a function handed to [element.evaluate] runs inside the page. *)
Inductive PageStmt : Type :=
  | ScrollIntoView (block inline behavior : string)
  | SetValue (value : option string)
  | DispatchEvent (type : string) (bubbles : bool).

(** The body of the push request. *)
Record PushData : Type := MkPushData { title : string; type : string; body : string }.

Definition Headers : Type := list (string * option string).

(** Every awaited call, indexed by the type of what it resolves with. *)
Inductive Call : Type -> Type :=
  | puppeteer_launch : Call Browser
  | browser_userAgent (browser : Browser) : Call string
  | browser_newPage (browser : Browser) : Call Page
  | browser_close (browser : Browser) : Call unit
  | page_setViewport (page : Page) (width height : Z) : Call unit
  | page_goto (page : Page) (url waitUntil : string) : Call unit
  | page_keyboard_down (page : Page) (key : string) : Call unit
  | page_keyboard_up (page : Page) (key : string) : Call unit
  | page_waitForNavigation (page : Page) : Call unit
  | page_cookies (page : Page) : Call (list Cookie)
  | root_waitForSelector (root : Root) (part : string) (options : WaitOptions)
      : Call (option ElementHandle)
  | element_shadowRoot (element : ElementHandle) : Call (option ElementHandle)
  | element_getProperty (element : ElementHandle) (property : string)
      : Call JS.JSHandle
  | element_isIntersectingViewport (element : ElementHandle) (threshold : Z)
      : Call bool
  | element_evaluate (element : ElementHandle) (stmts : list PageStmt) : Call unit
  | element_evaluate_type (element : ElementHandle) : Call (option string)
  | element_click (element : ElementHandle) (x y : Q) : Call unit
  | element_type (element : ElementHandle) (text : option string) : Call unit
  | element_focus (element : ElementHandle) : Call unit
  | axios_get (url : string) (headers : Headers) : Call (list Slot)
  | axios_post (url : string) (data : PushData) (headers : Headers) : Call unit.

(** Calls that are not awaited and cannot fail. *)
Inductive Setting : Type :=
  | setDefaultTimeout (page : Page) (ms : Z)
  | setDefaultNavigationTimeout (page : Page) (ms : Z).

(** How a promise settles. *)
Inductive Outcome (A : Type) : Type :=
  | Resolved (a : A)
  | Rejected (e : JS.Error).
Arguments Resolved {A} a.
Arguments Rejected {A} e.

(** ** The world: a clock and the trace of what happened *)

Inductive Event : Type :=
  | EvCall {A : Type} (at_ : Z) (c : Call A) (took : N) (r : Outcome A)
  | EvSet (at_ : Z) (s : Setting)
  | EvLog (at_ : Z) (msg : string)
  | EvConsoleError (at_ : Z) (e : JS.Error)
  | EvExit (at_ : Z).

Record World : Type := MkWorld { now : Z; trace : list Event }.

(** The environment answers a call, knowing everything that happened so far:
    how the promise settles and after how many milliseconds. *)
Definition Env : Type := forall A : Type, Call A -> World -> Outcome A * N.

(** Time does not run backwards and the past is not rewritten. *)
Definition extends (w w' : World) : Prop :=
  now w <= now w' /\ exists evs, trace w' = (trace w ++ evs)%list.

Lemma extends_refl (w : World) : extends w w.
Proof. split; [lia | exists []; now rewrite app_nil_r]. Qed.

Lemma extends_trans (w1 w2 w3 : World) :
  extends w1 w2 -> extends w2 w3 -> extends w1 w3.
Proof.
  intros [H1 [e1 T1]] [H2 [e2 T2]]. split; [lia |].
  exists (e1 ++ e2)%list. now rewrite T2, T1, app_assoc.
Qed.

(** ** Asynchronous computations

    An [async] function is a world transformer that settles with an outcome;
    it can only add to the world. *)

Definition Raw (A : Type) : Type := World -> Outcome A * World.

Record Async (A : Type) : Type := MkAsync {
  run : Raw A;
  run_extends : forall w, extends w (snd (run w))
}.
Arguments MkAsync {A} run run_extends.
Arguments run {A} _ _.
Arguments run_extends {A} _ _.

Definition ret_raw {A} (a : A) : Raw A := fun w => (Resolved a, w).

Definition throw_raw {A} (e : JS.Error) : Raw A := fun w => (Rejected e, w).

Definition bind_raw {A B} (m : Raw A) (k : A -> Raw B) : Raw B :=
  fun w =>
    match m w with
    | (Resolved a, w1) => k a w1
    | (Rejected e, w1) => (Rejected e, w1)
    end.

(** [try { m } catch (err) { handler }]. *)
Definition try_catch_raw {A} (m : Raw A) (handler : JS.Error -> Raw A) : Raw A :=
  fun w =>
    match m w with
    | (Resolved a, w1) => (Resolved a, w1)
    | (Rejected e, w1) => handler e w1
    end.

Definition emit (ev : Z -> Event) : Raw unit :=
  fun w => (Resolved tt, MkWorld (now w) (trace w ++ [ev (now w)])%list).

(** [await new Promise(resolve => setTimeout(resolve, ms))]. *)
Definition sleep_raw (ms : Z) : Raw unit :=
  fun w => (Resolved tt, MkWorld (now w + JS.timer_delay ms) (trace w)).

Definition clock_raw : Raw Z := fun w => (Resolved (now w), w).

Definition call_raw (env : Env) {A} (c : Call A) : Raw A :=
  fun w =>
    let (r, took) := env A c w in
    (r, MkWorld (now w + Z.of_N took) (trace w ++ [EvCall (now w) c took r])%list).

Lemma ret_extends {A} (a : A) w : extends w (snd (ret_raw a w)).
Proof. apply extends_refl. Qed.

Lemma throw_extends {A} (e : JS.Error) w : extends w (snd (@throw_raw A e w)).
Proof. apply extends_refl. Qed.

Lemma bind_extends {A B} (m : Async A) (k : A -> Async B) w :
  extends w (snd (bind_raw (run m) (fun a => run (k a)) w)).
Proof.
  unfold bind_raw. pose proof (run_extends m w) as Hm.
  destruct (run m w) as [[a | e] w1]; simpl in *; [| exact Hm].
  eapply extends_trans; [exact Hm | apply run_extends].
Qed.

Lemma try_catch_extends {A} (m : Async A) (handler : JS.Error -> Async A) w :
  extends w (snd (try_catch_raw (run m) (fun e => run (handler e)) w)).
Proof.
  unfold try_catch_raw. pose proof (run_extends m w) as Hm.
  destruct (run m w) as [[a | e] w1]; simpl in *; [exact Hm |].
  eapply extends_trans; [exact Hm | apply run_extends].
Qed.

Lemma emit_extends (ev : Z -> Event) w : extends w (snd (emit ev w)).
Proof. split; simpl; [lia | now exists [ev (now w)]]. Qed.

Lemma timer_delay_pos (ms : Z) : 1 <= JS.timer_delay ms.
Proof.
  unfold JS.timer_delay.
  destruct (ms <? 1) eqn:E; simpl; [lia |].
  destruct (2147483647 <? ms); lia.
Qed.

Lemma sleep_extends (ms : Z) w : extends w (snd (sleep_raw ms w)).
Proof.
  split; simpl; [pose proof (timer_delay_pos ms); lia |].
  exists []; now rewrite app_nil_r.
Qed.

Lemma clock_extends w : extends w (snd (clock_raw w)).
Proof. apply extends_refl. Qed.

Lemma call_extends (env : Env) {A} (c : Call A) w :
  extends w (snd (call_raw env c w)).
Proof.
  unfold call_raw. destruct (env A c w) as [r took]. split; simpl; [lia |].
  now exists [EvCall (now w) c took r].
Qed.

Definition ret {A} (a : A) : Async A := MkAsync (ret_raw a) (ret_extends a).

Definition throw {A} (e : JS.Error) : Async A :=
  MkAsync (throw_raw e) (throw_extends e).

Definition bind {A B} (m : Async A) (k : A -> Async B) : Async B :=
  MkAsync (bind_raw (run m) (fun a => run (k a))) (bind_extends m k).

Definition try_catch {A} (m : Async A) (handler : JS.Error -> Async A) : Async A :=
  MkAsync (try_catch_raw (run m) (fun e => run (handler e)))
          (try_catch_extends m handler).

Definition sleep (ms : Z) : Async unit := MkAsync (sleep_raw ms) (sleep_extends ms).

Definition clock : Async Z := MkAsync clock_raw clock_extends.

Definition call (env : Env) {A} (c : Call A) : Async A :=
  MkAsync (call_raw env c) (call_extends env c).

(** [console.log] behind the script's [log]: the stamp the script prints in
    front of the message is the clock value kept in the event. *)
Definition log (msg : string) : Async unit :=
  MkAsync (emit (fun t => EvLog t msg)) (emit_extends _).

Definition console_error (e : JS.Error) : Async unit :=
  MkAsync (emit (fun t => EvConsoleError t e)) (emit_extends _).

Definition set (s : Setting) : Async unit :=
  MkAsync (emit (fun t => EvSet t s)) (emit_extends _).

Definition process_exit : Async unit :=
  MkAsync (emit EvExit) (emit_extends _).

Notation "x <- m ;; k" := (bind m (fun x => k))
  (at level 61, m at next level, right associativity).
Notation "m ;; k" := (bind m (fun _ => k))
  (at level 61, right associativity).

(** ** Command line arguments (lines 7-14) *)

(** The options the script reads from [minimist]: each one is a string, or
    [undefined] when the option was not given. *)
Record Args : Type := MkArgs {
  d : option string;
  u : option string;
  p : option string;
  a : option string;
  c : option string;
  n : option string;
  r : option string
}.

(** A target is given as a string or as an array of steps. *)
Inductive Selector : Type :=
  | SelString (s : string)
  | SelArray (steps : list string).

Definition stringify_selector (selector : Selector) : string :=
  match selector with
  | SelString s => JS.stringify_string s
  | SelArray steps => JS.stringify_array (map JS.stringify_string steps)
  end.

(** [JSON.stringify(selectors)]. *)
Definition stringify_selectors (selectors : list Selector) : string :=
  JS.stringify_array (map stringify_selector selectors).

(** ** waitForFunction (lines 83-96)

    [isActive] is true until the timer set when polling begins has fired,
    that is, as long as the clock is before the deadline.  The loop is cut
    into iterations counted by a fuel that the distance to the deadline
    bounds, since every iteration sleeps. *)

Fixpoint poll (fuel : nat) (fn : Async JS.Value) (deadline : Z) (w : World)
  : Outcome unit * World :=
  if now w <? deadline then
    match fuel with
    | O => (Rejected (JS.error "Timed out"), w)
    | S fuel' =>
        match run fn w with
        | (Rejected e, w1) => (Rejected e, w1)
        | (Resolved result, w1) =>
            if JS.truthy result then (Resolved tt, w1)
            else poll fuel' fn deadline (snd (run (sleep 100) w1))
        end
    end
  else (Rejected (JS.error "Timed out"), w).

(** Iterations that fit between the clock and the deadline. *)
Definition iterations (deadline : Z) (w : World) : nat :=
  Z.to_nat ((deadline - now w + 99) / 100).

Definition waitForFunction_raw (fn : Async JS.Value) (timeout : Z) : Raw unit :=
  fun w =>
    let deadline := now w + JS.timer_delay timeout in
    poll (iterations deadline w) fn deadline w.

Lemma poll_extends (fuel : nat) (fn : Async JS.Value) (deadline : Z) (w : World) :
  extends w (snd (poll fuel fn deadline w)).
Proof.
  revert w. induction fuel as [| k IH]; intros w; simpl.
  - destruct (now w <? deadline); apply extends_refl.
  - destruct (now w <? deadline); [| apply extends_refl].
    pose proof (run_extends fn w) as Hfn.
    destruct (run fn w) as [[v | e] w1]; simpl in *; [| exact Hfn].
    destruct (JS.truthy v); [exact Hfn |].
    eapply extends_trans; [exact Hfn |].
    eapply extends_trans; [apply (run_extends (sleep 100)) | apply IH].
Qed.

Lemma waitForFunction_extends (fn : Async JS.Value) (timeout : Z) (w : World) :
  extends w (snd (waitForFunction_raw fn timeout w)).
Proof. apply poll_extends. Qed.

Definition waitForFunction (fn : Async JS.Value) (timeout : Z) : Async unit :=
  MkAsync (waitForFunction_raw fn timeout) (waitForFunction_extends fn timeout).

(** ** Promise.race against the supervisor's timer (line 153)

    The timer rejects at [deadline].  When the computation settles first its
    outcome is the race's; otherwise the race rejects at the deadline and
    what the computation would have started later never happens, since the
    process exits right after. *)

Definition started_before (deadline : Z) (ev : Event) : bool :=
  match ev with
  | EvCall t _ _ _ => t <? deadline
  | EvSet t _ => t <? deadline
  | EvLog t _ => t <? deadline
  | EvConsoleError t _ => t <? deadline
  | EvExit t => t <? deadline
  end.

Definition cut (deadline : Z) (w w' : World) : World :=
  MkWorld (Z.max (now w) deadline)
          (trace w ++ filter (started_before deadline)
                             (skipn (List.length (trace w)) (trace w')))%list.

Definition race_raw {A} (deadline : Z) (e : JS.Error) (m : Raw A) : Raw A :=
  fun w =>
    let (r, w') := m w in
    if now w' <? deadline then (r, w') else (Rejected e, cut deadline w w').

Lemma race_extends {A} (deadline : Z) (e : JS.Error) (m : Async A) (w : World) :
  extends w (snd (race_raw deadline e (run m) w)).
Proof.
  unfold race_raw. pose proof (run_extends m w) as Hm.
  destruct (run m w) as [r w']. simpl in Hm.
  destruct (now w' <? deadline); simpl; [exact Hm |].
  split; simpl; [lia | eauto].
Qed.

Definition race {A} (deadline : Z) (e : JS.Error) (m : Async A) : Async A :=
  MkAsync (race_raw deadline e (run m)) (race_extends deadline e m).

(** ** The script *)

Section Script.

Variable env : Env.
Variable host : JS.Host.
Variable args : Args.

Definition currentDate : JS.Date := JS.new_Date host (d args).
Definition usernameInput : option string := u args.
Definition passwordInput : option string := p args.
Definition appointmentId : option string := a args.
Definition consularId : option string := c args.
Definition userToken : option string := n args.
Definition region : option string := r args.

(** *** waitForSelector (lines 55-81) *)

Definition root_of (frame : Page) (element : option ElementHandle) : Root :=
  match element with
  | Some el => OnElement el
  | None => OnFrame frame
  end.

(** The [for] loop over the steps still to resolve, [element] being what the
    steps so far have led to. *)
Fixpoint waitForSelector_steps (selector : list string) (frame : Page)
    (options : WaitOptions) (element : option ElementHandle)
    (rest : list string) : Async (option ElementHandle) :=
  match rest with
  | [] => ret element
  | part :: rest' =>
      found <- call env (root_waitForSelector (root_of frame element) part options) ;;
      match found with
      | None =>
          throw (JS.error ("Could not find element: " ++ JS.join ">>" selector))
      | Some el =>
          match rest' with
          | [] => waitForSelector_steps selector frame options (Some el) rest'
          | _ :: _ =>
              inner <- call env (element_shadowRoot el) ;;
              waitForSelector_steps selector frame options inner rest'
          end
      end
  end.

Definition steps_of (selector : Selector) : list string :=
  match selector with
  | SelString s => [s]
  | SelArray steps => steps
  end.

Definition waitForSelector (selector : Selector) (frame : Page)
    (options : WaitOptions) : Async ElementHandle :=
  let selector := steps_of selector in
  match selector with
  | [] => throw (JS.error "Empty selector provided to waitForSelector")
  | _ :: _ =>
      element <- waitForSelector_steps selector frame options None selector ;;
      match element with
      | None =>
          throw (JS.error ("Could not find element: " ++ JS.join "|" selector))
      | Some el => ret el
      end
  end.

(** *** waitForSelectors (lines 18-25) *)

Fixpoint waitForSelectors_from (selectors rest : list Selector) (frame : Page)
    (options : WaitOptions) : Async ElementHandle :=
  match rest with
  | [] =>
      throw (JS.error ("Could not find element for selectors: "
                       ++ stringify_selectors selectors))
  | selector :: rest' =>
      try_catch (waitForSelector selector frame options)
                (fun _ => waitForSelectors_from selectors rest' frame options)
  end.

Definition waitForSelectors (selectors : list Selector) (frame : Page)
    (options : WaitOptions) : Async ElementHandle :=
  waitForSelectors_from selectors selectors frame options.

(** *** waitForConnected, waitForInViewport, scrollIntoViewIfNeeded
    (lines 27-53) *)

(** The predicate of [waitForConnected]: [getProperty] resolves with a
    [JSHandle], and that object is what the predicate returns. *)
Definition isConnected_handle (element : ElementHandle) : Async JS.Value :=
  h <- call env (element_getProperty element "isConnected") ;;
  ret (JS.VObject h).

Definition waitForConnected (element : ElementHandle) (timeout : Z) : Async unit :=
  waitForFunction (isConnected_handle element) timeout.

Definition intersects (element : ElementHandle) : Async JS.Value :=
  b <- call env (element_isIntersectingViewport element 0) ;;
  ret (JS.VBool b).

Definition waitForInViewport (element : ElementHandle) (timeout : Z) : Async unit :=
  waitForFunction (intersects element) timeout.

Definition scrollIntoViewIfNeeded (element : ElementHandle) (timeout : Z)
  : Async unit :=
  waitForConnected element timeout ;;
  isInViewport <- call env (element_isIntersectingViewport element 0) ;;
  if (isInViewport : bool) then ret tt
  else
    call env (element_evaluate element [ScrollIntoView "center" "center" "auto"]) ;;
    waitForInViewport element timeout.

(** *** notify (lines 107-129) *)

(** The request of lines 114-128: endpoint, data and headers. *)
Definition pushRequest (msg : string) (agent : string) : Call unit :=
  axios_post "https://api.pushbullet.com/v2/pushes"
    (MkPushData "US Visa Appointment Notification" "note" msg)
    [("Access-Token", userToken); ("User-Agent", Some agent)].

Definition notify (msg : string) (agent : string) : Async unit :=
  log msg ;;
  if JS.falsy_str userToken then ret tt
  else call env (pushRequest msg agent).

(** *** Typing into a field (lines 188-198 and 218-228) *)

Definition typeable : list string :=
  ["textarea"; "select-one"; "text"; "url"; "tel"; "search"; "password";
   "number"; "email"].

(** [typeable.includes(type)], where [el.type] is a string or [undefined]. *)
Definition typeable_includes (ty : option string) : bool :=
  match ty with
  | Some s => existsb (String.eqb s) typeable
  | None => false
  end.

Definition typeInto (element : ElementHandle) (value : option string)
  : Async unit :=
  ty <- call env (element_evaluate_type element) ;;
  if typeable_includes ty then call env (element_type element value)
  else
    call env (element_focus element) ;;
    call env (element_evaluate element
                [SetValue value; DispatchEvent "input" true;
                 DispatchEvent "change" true]).

(** *** runPuppeteerLogic (lines 155-295) *)

Section Session.

Variable browser : Browser.
Variable page : Page.
Variable agent : string.
Variable timeout : Z.

Definition options : WaitOptions := MkWaitOptions timeout true.

Definition portal : string := "https://ais.usvisa-info.com/en-" ++ JS.str region.

Definition setViewport : Async unit :=
  call env (page_setViewport page 2078 1479) ;;
  log "Viewport set.".

Definition gotoLogin : Async unit :=
  call env (page_goto page (portal ++ "/niv/users/sign_in") "domcontentloaded") ;;
  log "Navigated to login page.".

Definition emailSelectors : list Selector :=
  [SelArray ["aria/Email *"]; SelArray ["#user_email"]].

Definition clickUsername : Async unit :=
  element <- waitForSelectors emailSelectors page options ;;
  scrollIntoViewIfNeeded element timeout ;;
  call env (element_click element 118 (1373 # 64)) ;;
  log "Username input clicked.".

Definition typeUsername : Async unit :=
  element <- waitForSelectors emailSelectors page options ;;
  scrollIntoViewIfNeeded element timeout ;;
  typeInto element usernameInput ;;
  log "Username typed.".

Definition hitTab : Async unit :=
  call env (page_keyboard_down page "Tab") ;;
  call env (page_keyboard_up page "Tab") ;;
  log "Tabbed to password input.".

Definition typePassword : Async unit :=
  element <- waitForSelectors
               [SelArray ["aria/Password"]; SelArray ["#user_password"]]
               page options ;;
  scrollIntoViewIfNeeded element timeout ;;
  typeInto element passwordInput ;;
  log "Password typed.".

Definition tickAgreement : Async unit :=
  element <- waitForSelectors
               [SelArray ["#sign_in_form > div.radio-checkbox-group.margin-top-30 > label > div"]]
               page options ;;
  scrollIntoViewIfNeeded element timeout ;;
  call env (element_click element 9 (523 # 32)) ;;
  log "Agreement checkbox ticked.".

Definition clickLogin : Async unit :=
  element <- waitForSelectors
               [SelArray ["aria/Sign In[role=" ++ JS.dquote ++ "button" ++ JS.dquote ++ "]"];
                SelArray ["#new_user > p:nth-child(9) > input"]]
               page options ;;
  scrollIntoViewIfNeeded element timeout ;;
  call env (element_click element 34 (363 # 32)) ;;
  call env (page_waitForNavigation page) ;;
  log "Login button clicked. Navigating...".

Definition schedule : string := portal ++ "/niv/schedule/" ++ JS.str appointmentId.

Definition sessionCookie (cookies : list Cookie) : option string :=
  match filter (fun cookie => String.eqb (cookie_name cookie) "_yatri_session") cookies with
  | [] => None
  | cookie :: _ => Some (cookie_name cookie ++ "=" ++ cookie_value cookie)
  end.

(** The query for the open days; resolves with [response.data]. *)
Definition fetchAvailableDates : Async (list Slot) :=
  log "Fetching available dates..." ;;
  cookies <- call env (page_cookies page) ;;
  call env (axios_get
    (schedule ++ "/appointment/days/" ++ JS.str consularId
     ++ ".json?appointments[expedite]=false")
    [("Accept", Some "application/json, text/javascript, */*; q=0.01");
     ("Accept-Encoding", Some "gzip, deflate, br, zstd");
     ("Accept-Language", Some "en-US,en;q=0.9");
     ("Connection", Some "keep-alive");
     ("Cookie", sessionCookie cookies);
     ("Host", Some "ais.usvisa-info.com");
     ("Referer", Some (schedule ++ "/appointment"));
     ("User-Agent", Some agent);
     ("X-Requested-With", Some "XMLHttpRequest")]).

Definition noDatesMessage : string :=
  "There are no available dates for consulate with id " ++ JS.str consularId.

Definition earlierMessage (firstDate : JS.Date) : string :=
  "There is an earlier date available for the appointment! "
  ++ JS.toDateString host firstDate.

Definition noEarlierMessage (firstDate : JS.Date) : string :=
  "No earlier date available yet. First available date: "
  ++ JS.toDateString host firstDate.

Definition datesMessage (firstDate : JS.Date) : string :=
  "There are available dates. Your current date is "
  ++ JS.Date_toString host currentDate
  ++ ". The first available date is "
  ++ JS.Date_toString host firstDate.

(** Lines 274-289.  [Some v] when the function returns [v] from inside the
    block, [None] when control reaches the end of the block. *)
Definition checkAvailableDates (availableDates : list Slot)
  : Async (option JS.Value) :=
  match availableDates with
  | [] =>
      log noDatesMessage ;;
      call env (browser_close browser) ;;
      ret (Some (JS.VBool false))
  | first :: _ =>
      let firstDate := JS.new_Date host (Some (date first)) in
      log (datesMessage firstDate) ;;
      (if JS.Date_lt firstDate currentDate then
         log (earlierMessage firstDate) ;;
         notify (earlierMessage firstDate) agent
       else
         log (noEarlierMessage firstDate)) ;;
      ret None
  end.

(** Everything up to and including the query. *)
Definition signInAndQuery : Async (list Slot) :=
  log "Puppeteer initialized." ;;
  setViewport ;;
  gotoLogin ;;
  clickUsername ;;
  typeUsername ;;
  hitTab ;;
  typePassword ;;
  tickAgreement ;;
  clickLogin ;;
  fetchAvailableDates.

Definition runPuppeteerLogic : Async JS.Value :=
  availableDates <- signInAndQuery ;;
  returned <- checkAvailableDates availableDates ;;
  match returned with
  | Some v => ret v
  | None =>
      call env (browser_close browser) ;;
      ret JS.VUndefined
  end.

End Session.

(** *** runLogic (lines 132-301) and the last two lines of the script

    The timer of lines 135-139 is set before the browser is launched and its
    promise gets a handler only in the race of line 153.  The run below
    takes the browser, the user agent and the page to be there before the
    timer fires, so that the race is where the timer is first observed; a
    set-up still pending at that instant, where Node ends the process on
    the unhandled rejection of the timer's promise, is not a run of this
    definition, and the statements on the supervisor are made for set-ups
    that are over within the minute. *)

Definition runLogic : Async unit :=
  log "Initializing Puppeteer..." ;;
  started <- clock ;;
  try_catch
    (browser <- call env puppeteer_launch ;;
     agent <- call env (browser_userAgent browser) ;;
     page <- call env (browser_newPage browser) ;;
     set (setDefaultTimeout page 5000) ;;
     set (setDefaultNavigationTimeout page 60000) ;;
     race (started + JS.timer_delay 60000)
          (JS.error "Script timed out. Terminating...")
          (runPuppeteerLogic browser page agent 5000) ;;
     ret tt)
    (fun error => console_error error).

Definition main : Async unit :=
  runLogic ;;
  process_exit.

End Script.

(** ** Observations on a run *)

(** What the script added to the world. *)
Definition new_events (w w' : World) : list Event :=
  skipn (List.length (trace w)) (trace w').

(** A request, whatever it resolves with. *)
Inductive Request : Type :=
  | Req {A : Type} (c : Call A).

Definition requests (evs : list Event) : list Request :=
  flat_map (fun ev => match ev with
                      | EvCall _ c _ _ => [Req c]
                      | _ => []
                      end) evs.

Definition logged (evs : list Event) : list string :=
  flat_map (fun ev => match ev with
                      | EvLog _ msg => [msg]
                      | _ => []
                      end) evs.

Definition console_errors (evs : list Event) : list JS.Error :=
  flat_map (fun ev => match ev with
                      | EvConsoleError _ e => [e]
                      | _ => []
                      end) evs.

Definition is_close (ev : Event) : bool :=
  match ev with
  | EvCall _ (browser_close _) _ _ => true
  | _ => false
  end.

(** How many times the browser session was asked to close. *)
Definition closes (evs : list Event) : nat := List.length (filter is_close evs).

Definition push_of (ev : Event) : list PushData :=
  match ev with
  | EvCall _ (axios_post _ data _) _ _ => [data]
  | _ => []
  end.

(** The bodies of the push requests that were sent. *)
Definition pushes (evs : list Event) : list PushData := flat_map push_of evs.

Definition scroll_of (ev : Event) : list PageStmt :=
  match ev with
  | EvCall _ (element_evaluate _ stmts) _ _ =>
      filter (fun s => match s with ScrollIntoView _ _ _ => true | _ => false end)
             stmts
  | _ => []
  end.

(** The scrolls that were requested. *)
Definition scrolls (evs : list Event) : list PageStmt := flat_map scroll_of evs.

(** The terminal state of one invocation. *)
Inductive RunOutcome : Type :=
  | ScheduledEarlierFound
  | NoEarlierAvailable
  | NoSlotsAtAll
  | Failed
  | TimedOut.

(** The decision a log line announces, if any (lines 275, 285 and 288). *)
Definition announces (msg : string) : option RunOutcome :=
  if String.prefix "There are no available dates for consulate with id " msg
  then Some NoSlotsAtAll
  else if String.prefix "There is an earlier date available for the appointment! " msg
  then Some ScheduledEarlierFound
  else if String.prefix "No earlier date available yet. First available date: " msg
  then Some NoEarlierAvailable
  else None.

(** The decision the workflow reached: the first one it announced. *)
Fixpoint decision (msgs : list string) : option RunOutcome :=
  match msgs with
  | [] => None
  | msg :: rest =>
      match announces msg with
      | Some o => Some o
      | None => decision rest
      end
  end.

(** How a whole run ended: an error that reached [runLogic]'s [catch] makes
    it [TimedOut] when it is the supervisor's and [Failed] otherwise; a run
    without one ends in the decision it reached. *)
Definition runOutcome (evs : list Event) : option RunOutcome :=
  match console_errors evs with
  | e :: _ =>
      if String.eqb (JS.message e) "Script timed out. Terminating..."
      then Some TimedOut else Some Failed
  | [] => decision (logged evs)
  end.

(** The earliest of the valid dates of a sequence. *)
Fixpoint earliest (dates : list JS.Date) : JS.Date :=
  match dates with
  | [] => None
  | None :: rest => earliest rest
  | Some t :: rest =>
      match earliest rest with
      | None => Some t
      | Some t' => Some (Z.min t t')
      end
  end.

Definition slot_dates (host : JS.Host) (slots : list Slot) : list JS.Date :=
  map (fun slot => JS.new_Date host (Some (date slot))) slots.

(** The input categories the specification calls natively typeable, and the
    value of [el.type] each one stands for. *)
Inductive Category : Type :=
  | FreeText
  | Numeric
  | Email
  | Password
  | Url
  | Phone
  | Search
  | SingleChoiceList
  | OtherCategory.

Definition category_of (ty : option string) : Category :=
  match ty with
  | None => OtherCategory
  | Some s =>
      if String.eqb s "text" || String.eqb s "textarea" then FreeText
      else if String.eqb s "number" then Numeric
      else if String.eqb s "email" then Email
      else if String.eqb s "password" then Password
      else if String.eqb s "url" then Url
      else if String.eqb s "tel" then Phone
      else if String.eqb s "search" then Search
      else if String.eqb s "select-one" then SingleChoiceList
      else OtherCategory
  end.

(** ** The invocations of a polled predicate *)

Record Invocation : Type := MkInvocation {
  started : World;
  outcome : Outcome JS.Value;
  ended : World
}.

(** The loop of [waitForFunction] once the deadline is set. *)
Definition polling (fn : Async JS.Value) (deadline : Z) (w : World)
  : Outcome unit * World :=
  poll (iterations deadline w) fn deadline w.

(** The world when the 100 ms pause after an invocation is over. *)
Definition resumed (w : World) : World := MkWorld (now w + 100) (trace w).

(** [polls fn deadline w invs]: from [w], the loop invokes the predicate as
    listed by [invs], one invocation after the other; an invocation is only
    followed by another when it resolved with a falsy value. *)
Inductive polls (fn : Async JS.Value) (deadline : Z)
  : World -> list Invocation -> Prop :=
  | polls_last w o w1 :
      now w < deadline ->
      run fn w = (o, w1) ->
      polls fn deadline w [MkInvocation w o w1]
  | polls_next w v w1 rest :
      now w < deadline ->
      run fn w = (Resolved v, w1) ->
      JS.truthy v = false ->
      polls fn deadline (resumed w1) rest ->
      polls fn deadline w (MkInvocation w (Resolved v) w1 :: rest).

(** ** Environments used to exercise the script *)

(** A portal whose behaviour is given by a few switches. *)
Record Portal : Type := MkPortal {
  resolves : string -> option ElementHandle;
  connected : bool;
  intersecting : World -> Outcome bool;
  inputType : option string;
  slots : list Slot;
  push : Outcome unit
}.

Definition TimeoutError (what : string) : JS.Error :=
  JS.MkError "TimeoutError" ("Waiting for " ++ what ++ " failed").

Definition portal_env (P : Portal) : Env :=
  fun A c =>
    match c in Call T return World -> Outcome T * N with
    | puppeteer_launch => fun _ => (Resolved 1%nat, 400%N)
    | browser_userAgent _ => fun _ => (Resolved "HeadlessChrome", 2%N)
    | browser_newPage _ => fun _ => (Resolved 1%nat, 30%N)
    | browser_close _ => fun _ => (Resolved tt, 50%N)
    | page_setViewport _ _ _ => fun _ => (Resolved tt, 3%N)
    | page_goto _ _ _ => fun _ => (Resolved tt, 900%N)
    | page_keyboard_down _ _ => fun _ => (Resolved tt, 2%N)
    | page_keyboard_up _ _ => fun _ => (Resolved tt, 2%N)
    | page_waitForNavigation _ => fun _ => (Resolved tt, 1200%N)
    | page_cookies _ =>
        fun _ => (Resolved [MkCookie "_ga" "GA1"; MkCookie "_yatri_session" "abc"], 4%N)
    | root_waitForSelector _ part options =>
        fun _ =>
          match resolves P part with
          | Some el => (Resolved (Some el), 20%N)
          | None => (Rejected (TimeoutError ("selector " ++ part)),
                     Z.to_N (timeout options))
          end
    | element_shadowRoot el => fun _ => (Resolved (Some el), 2%N)
    | element_getProperty _ _ =>
        fun _ => (Resolved (JS.MkJSHandle (JS.RBool (connected P))), 2%N)
    | element_isIntersectingViewport _ _ => fun w => (intersecting P w, 5%N)
    | element_evaluate _ _ => fun _ => (Resolved tt, 3%N)
    | element_evaluate_type _ => fun _ => (Resolved (inputType P), 3%N)
    | element_click _ _ _ => fun _ => (Resolved tt, 40%N)
    | element_type _ _ => fun _ => (Resolved tt, 150%N)
    | element_focus _ => fun _ => (Resolved tt, 3%N)
    | axios_get _ _ => fun _ => (Resolved (slots P), 350%N)
    | axios_post _ _ _ => fun _ => (push P, 200%N)
    end.

(** Everything is found, attached and in view; the answer lists [days]. *)
Definition open_portal (days : list Slot) (delivery : Outcome unit) : Portal :=
  MkPortal (fun _ => Some 7%nat) true (fun _ => Resolved true) (Some "email")
           days delivery.

(** No selector ever resolves. *)
Definition blank_portal : Portal :=
  MkPortal (fun _ => None) true (fun _ => Resolved true) (Some "email") []
           (Resolved tt).

Definition was_scrolled (w : World) : bool :=
  match scrolls (trace w) with
  | [] => false
  | _ :: _ => true
  end.

(** The element is out of view until it is scrolled to, and its handle says
    it is not attached. *)
Definition detached_portal : Portal :=
  MkPortal (fun _ => Some 7%nat) false (fun w => Resolved (was_scrolled w))
           (Some "email") [] (Resolved tt).

(** The element comes into view at [t]. *)
Definition late_portal (t : Z) : Portal :=
  MkPortal (fun _ => Some 7%nat) true (fun w => Resolved (t <=? now w))
           (Some "email") [] (Resolved tt).

(** The page crashes at [t]: from then on the viewport check rejects. *)
Definition crashing_portal (t : Z) : Portal :=
  MkPortal (fun _ => Some 7%nat) true
           (fun w => if t <=? now w
                     then Rejected (JS.MkError "ProtocolError" "Target closed")
                     else Resolved false)
           (Some "email") [] (Resolved tt).

Definition sample_args (token : option string) : Args :=
  MkArgs (Some "2022-06-22") (Some "username") (Some "password")
         (Some "359734258") (Some "95") token (Some "ca").

Definition origin : World := MkWorld 0 [].

(** One invocation of [fn] from [w], and the one that follows an invocation
    after the pause. *)
Definition invoke (fn : Async JS.Value) (w : World) : Invocation :=
  MkInvocation w (fst (run fn w)) (snd (run fn w)).

Definition invoke_after (fn : Async JS.Value) (i : Invocation) : Invocation :=
  invoke fn (resumed (ended i)).

(** ** Attempts of the Element Locator *)

(** [rejected_in_turn env frame options selectors w w']: from [w] the
    strategies listed were attempted one after the other, each one was
    rejected, and the last attempt left the world [w']. *)
Inductive rejected_in_turn (env : Env) (frame : Page) (options : WaitOptions)
  : list Selector -> World -> World -> Prop :=
  | none_left w : rejected_in_turn env frame options [] w w
  | one_more selector rest w e w1 w2 :
      run (waitForSelector env selector frame options) w = (Rejected e, w1) ->
      rejected_in_turn env frame options rest w1 w2 ->
      rejected_in_turn env frame options (selector :: rest) w w2.

Definition has_steps (selector : Selector) : bool :=
  match steps_of selector with
  | [] => false
  | _ :: _ => true
  end.

(** Lookups fail in no other way than by using up their timeout, and the
    descent into a shadow root does not fail. *)
Definition lookups_time_out (env : Env) : Prop :=
  (forall root part options w,
      match env _ (root_waitForSelector root part options) w with
      | (Resolved (Some _), _) => True
      | (_, took) => timeout options <= Z.of_N took
      end)
  /\ (forall element w,
        exists inner, fst (env _ (element_shadowRoot element) w) = Resolved inner).

(** The claim that a failing Locator has waited for the timeout of every
    strategy. *)
Definition waits_for_every_timeout (env : Env) (selectors : list Selector)
    (frame : Page) (options : WaitOptions) (w : World) : Prop :=
  forall e w',
    run (waitForSelectors env selectors frame options) w = (Rejected e, w') ->
    now w + timeout options * Z.of_nat (List.length selectors) <= now w'.

(** ** The claims about the Visibility Guarantor, as stated *)

(** What the handles fetched for [isConnected] stood for. *)
Definition attachment_report (ev : Event) : list JS.Remote :=
  match ev with
  | EvCall _ c _ r =>
      match c in Call T return Outcome T -> list JS.Remote with
      | element_getProperty _ _ =>
          fun r => match r with
                   | Resolved h => [JS.remote h]
                   | Rejected _ => []
                   end
      | _ => fun _ => []
      end r
  | _ => []
  end.

Definition attachment_reports (evs : list Event) : list JS.Remote :=
  flat_map attachment_report evs.

(** The attachment poll resolves only once the handle has reported the
    element attached. *)
Definition waits_until_attached (env : Env) (element : ElementHandle)
    (timeout : Z) (w : World) : Prop :=
  forall w',
    run (waitForConnected env element timeout) w = (Resolved tt, w') ->
    In (JS.RBool true) (attachment_reports (new_events w w')).

(** Every scroll the Guarantor asks for is smooth and centred. *)
Definition scrolls_smoothly (env : Env) (element : ElementHandle)
    (timeout : Z) (w : World) : Prop :=
  forall s,
    In s (scrolls (new_events w (snd (run (scrollIntoViewIfNeeded env element timeout) w)))) ->
    s = ScrollIntoView "center" "center" "smooth".

(** The world once [msg] has been logged. *)
Definition with_log (w : World) (msg : string) : World :=
  MkWorld (now w) (trace w ++ [EvLog (now w) msg])%list.

(** ** The claims about the decision and the notification, as stated *)

(** C1 as stated: the workflow announces an earlier date exactly when the
    earliest date of the answer is before the threshold. *)
Definition decides_by_earliest (host : JS.Host) (args : Args)
    (days : list Slot) (evs : list Event) : Prop :=
  decision (logged evs) = Some ScheduledEarlierFound
  <-> JS.Date_lt (earliest (slot_dates host days)) (currentDate host args) = true.

(** C3 as stated: a run whose push request fails ends as the run whose push
    request succeeds does. *)
Definition delivery_failure_is_harmless (host : JS.Host) (args : Args)
    (days : list Slot) (e : JS.Error) : Prop :=
  runOutcome (trace (snd (run (main (portal_env (open_portal days (Rejected e)))
                                    host args) origin)))
  = runOutcome (trace (snd (run (main (portal_env (open_portal days (Resolved tt)))
                                      host args) origin))).

(** C8 as stated: something the run logged or pushed contains [needle]. *)
Definition tells (needle : string) (evs : list Event) : Prop :=
  exists msg,
    (In msg (logged evs) \/ In msg (map body (pushes evs)))
    /\ JS.includes needle msg = true.

(** Valid dates in ascending order. *)
Fixpoint ascending (dates : list JS.Date) : bool :=
  match dates with
  | [] => true
  | None :: _ => false
  | Some t :: rest =>
      match rest with
      | Some t' :: _ => (t <=? t') && ascending rest
      | None :: _ => false
      | [] => true
      end
  end.

(** Scenario A: one slot on 2022-05-01, threshold 2022-06-22, a token. *)
Definition scenario_A (delivery : Outcome unit) : Env :=
  portal_env (open_portal [MkSlot "2022-05-01"] delivery).

Definition unauthorized : JS.Error :=
  JS.error "Request failed with status code 401".

(** The viewport check of element 7 polled against a page that crashes at
    250 ms, and the four invocations the poller makes of it. *)
Definition crash_probe : Async JS.Value :=
  intersects (portal_env (crashing_portal 250)) 7%nat.

Definition crash_1 : Invocation := invoke crash_probe origin.
Definition crash_2 : Invocation := invoke_after crash_probe crash_1.
Definition crash_3 : Invocation := invoke_after crash_probe crash_2.
Definition crash_4 : Invocation := invoke_after crash_probe crash_3.

(** * Properties *)

(** ** The runtime model *)

(** [YearFromDay] is the year ECMA-262 asks for: the one whose first day is
    the last first-of-year not after the given day. *)
Lemma YearFromDay_spec (day : Z) :
  JS.DayFromYear (JS.YearFromDay day) <= day
  < JS.DayFromYear (JS.YearFromDay day + 1).
Proof.
  unfold JS.YearFromDay.
  set (y := 1970 + day * 400 / 146097).
  assert (Hy : 146097 * (y - 1970) <= day * 400 < 146097 * (y - 1970) + 146097).
  { unfold y. pose proof (Z.div_mod (day * 400) 146097 ltac:(lia)).
    pose proof (Z.mod_pos_bound (day * 400) 146097 ltac:(lia)). lia. }
  clearbody y.
  destruct (day <? JS.DayFromYear y) eqn:E1;
    [apply Z.ltb_lt in E1 | apply Z.ltb_ge in E1].
  - unfold JS.DayFromYear in *. replace (y - 1 + 1) with y by lia.
    split; [| lia]. Z.div_mod_to_equations. lia.
  - destruct (JS.DayFromYear (y + 1) <=? day) eqn:E2;
      [apply Z.leb_le in E2 | apply Z.leb_gt in E2].
    + unfold JS.DayFromYear in *. split; [lia |]. Z.div_mod_to_equations. lia.
    + lia.
Qed.

Example parse_2022_05_01 : JS.parse_iso_date "2022-05-01" = Some 1651363200000.
Proof. reflexivity. Qed.

Example print_2022_05_01 :
  JS.Date_toString JS.utc (Some 1651363200000)
  = "Sun May 01 2022 00:00:00 GMT+0000 (Coordinated Universal Time)".
Proof. vm_compute. reflexivity. Qed.

Example dates_round_the_calendar :
  JS.parse_iso_date "2024-02-29" = Some 1709164800000
  /\ JS.parse_iso_date "2023-02-29" = None
  /\ JS.parse_iso_date "1970-01-01" = Some 0
  /\ JS.toDateString JS.utc (Some (-1)) = "Wed Dec 31 1969"
  /\ JS.toDateString JS.utc (Some 951782400000) = "Tue Feb 29 2000"
  /\ JS.toDateString JS.utc (Some 4102444800000) = "Fri Jan 01 2100".
Proof. vm_compute. repeat split; reflexivity. Qed.

(** ** Running computations *)

Lemma run_bind {A B} (m : Async A) (k : A -> Async B) (w : World) :
  run (bind m k) w =
  match run m w with
  | (Resolved a, w1) => run (k a) w1
  | (Rejected e, w1) => (Rejected e, w1)
  end.
Proof. reflexivity. Qed.

Lemma run_try_catch {A} (m : Async A) (handler : JS.Error -> Async A) (w : World) :
  run (try_catch m handler) w =
  match run m w with
  | (Resolved a, w1) => (Resolved a, w1)
  | (Rejected e, w1) => run (handler e) w1
  end.
Proof. reflexivity. Qed.

Lemma run_call (env : Env) {A} (c : Call A) (w : World) :
  run (call env c) w =
  (fst (env A c w),
   MkWorld (now w + Z.of_N (snd (env A c w)))
           (trace w ++ [EvCall (now w) c (snd (env A c w)) (fst (env A c w))])%list).
Proof. simpl. unfold call_raw. now destruct (env A c w). Qed.

Lemma run_log (msg : string) (w : World) :
  run (log msg) w = (Resolved tt, MkWorld (now w) (trace w ++ [EvLog (now w) msg])%list).
Proof. reflexivity. Qed.

Lemma new_events_app (w : World) (evs : list Event) (t : Z) :
  new_events w (MkWorld t (trace w ++ evs)%list) = evs.
Proof.
  unfold new_events. simpl.
  induction (trace w) as [| x l IH]; simpl; [reflexivity | exact IH].
Qed.

Lemma new_events_extends (w w' : World) :
  extends w w' -> trace w' = (trace w ++ new_events w w')%list.
Proof.
  intros [_ [evs E]]. unfold new_events. rewrite E. f_equal. clear E.
  induction (trace w) as [| x l IH]; simpl; [reflexivity | exact IH].
Qed.

(** ** The Condition Poller *)

Lemma sleep_100 (w : World) : snd (run (sleep 100) w) = resumed w.
Proof. reflexivity. Qed.

(** Any fuel that covers the distance to the deadline gives the same run. *)
Lemma poll_enough (fn : Async JS.Value) (deadline : Z) (k : nat) :
  forall w, deadline - now w <= 100 * Z.of_nat k ->
            poll k fn deadline w = polling fn deadline w.
Proof.
  unfold polling.
  assert (G : forall k k' w,
             deadline - now w <= 100 * Z.of_nat k ->
             deadline - now w <= 100 * Z.of_nat k' ->
             poll k fn deadline w = poll k' fn deadline w).
  { clear k. induction k as [| k IH]; intros [| k'] w Hk Hk'; cbn [poll];
      destruct (now w <? deadline) eqn:E; try reflexivity;
      apply Z.ltb_lt in E; try lia.
    pose proof (run_extends fn w) as [Hfn _].
    destruct (run fn w) as [[v | e] w1]; cbn [fst snd] in *; [| reflexivity].
    destruct (JS.truthy v); [reflexivity |].
    rewrite sleep_100. rewrite Nat2Z.inj_succ in Hk, Hk'.
    apply IH; unfold resumed; cbn [now]; lia. }
  intros w Hk. apply G; [exact Hk |].
  unfold iterations.
  destruct (Z.le_gt_cases (deadline - now w) 0) as [Hle | Hgt]; [lia |].
  rewrite Z2Nat.id by (apply Z.div_pos; lia).
  pose proof (Z.div_mod (deadline - now w + 99) 100 ltac:(lia)).
  pose proof (Z.mod_pos_bound (deadline - now w + 99) 100 ltac:(lia)). lia.
Qed.

(** The equation of the [while] loop. *)
Lemma polling_unfold (fn : Async JS.Value) (deadline : Z) (w : World) :
  polling fn deadline w =
  if now w <? deadline then
    match run fn w with
    | (Rejected e, w1) => (Rejected e, w1)
    | (Resolved v, w1) =>
        if JS.truthy v then (Resolved tt, w1)
        else polling fn deadline (resumed w1)
    end
  else (Rejected (JS.error "Timed out"), w).
Proof.
  unfold polling at 1.
  destruct (now w <? deadline) eqn:E.
  - apply Z.ltb_lt in E.
    assert (Hpos : (0 < iterations deadline w)%nat).
    { unfold iterations.
      assert (1 <= (deadline - now w + 99) / 100)
        by (apply Z.div_le_lower_bound; lia).
      lia. }
    assert (Hcover : deadline - now w <= 100 * Z.of_nat (iterations deadline w)).
    { unfold iterations. rewrite Z2Nat.id by (apply Z.div_pos; lia).
      pose proof (Z.div_mod (deadline - now w + 99) 100 ltac:(lia)).
      pose proof (Z.mod_pos_bound (deadline - now w + 99) 100 ltac:(lia)). lia. }
    destruct (iterations deadline w) as [| k]; [lia |].
    cbn [poll]. apply Z.ltb_lt in E. rewrite E. apply Z.ltb_lt in E.
    pose proof (run_extends fn w) as [Hfn _].
    destruct (run fn w) as [[v | e] w1]; cbn [fst snd] in *; [| reflexivity].
    destruct (JS.truthy v); [reflexivity |].
    rewrite sleep_100. rewrite Nat2Z.inj_succ in Hcover.
    apply poll_enough. unfold resumed; cbn [now]. lia.
  - destruct (iterations deadline w); cbn [poll]; now rewrite E.
Qed.

Lemma waitForFunction_polling (fn : Async JS.Value) (timeout : Z) (w : World) :
  run (waitForFunction fn timeout) w
  = polling fn (now w + JS.timer_delay timeout) w.
Proof. reflexivity. Qed.

(** What the loop settles with after a last invocation. *)
Definition settles (deadline : Z) (last : Invocation) : Outcome unit * World :=
  match outcome last with
  | Resolved v =>
      if JS.truthy v then (Resolved tt, ended last)
      else (Rejected (JS.error "Timed out"), resumed (ended last))
  | Rejected e => (Rejected e, ended last)
  end.

(** A last invocation ends the loop when it did not come back falsy with
    time left. *)
Definition final (deadline : Z) (last : Invocation) : Prop :=
  forall v, outcome last = Resolved v -> JS.truthy v = false ->
            deadline <= now (resumed (ended last)).

(** From a world before the deadline the loop makes a sequence of
    invocations whose last one ends it. *)
Lemma polling_complete (fn : Async JS.Value) (deadline : Z) (k : nat) :
  forall w, now w < deadline -> deadline - now w <= 100 * Z.of_nat k ->
    exists before last,
      polls fn deadline w (before ++ [last])
      /\ final deadline last
      /\ polling fn deadline w = settles deadline last.
Proof.
  induction k as [| k IH]; intros w Hlt Hk; [lia |].
  rewrite polling_unfold.
  assert (E : (now w <? deadline) = true) by now apply Z.ltb_lt.
  rewrite E.
  pose proof (run_extends fn w) as [Hfn _].
  destruct (run fn w) as [[v | e] w1] eqn:R; cbn [fst snd] in Hfn.
  - destruct (JS.truthy v) eqn:T.
    + exists [], (MkInvocation w (Resolved v) w1). simpl. repeat split.
      * now apply polls_last.
      * intros v' Hv' Hf. unfold final in *. simpl in *.
        inversion Hv'; subst. congruence.
      * unfold settles. simpl. now rewrite T.
    + destruct (Z.lt_ge_cases (now (resumed w1)) deadline) as [Hmore | Hdone].
      * destruct (IH (resumed w1) Hmore) as (before & last & P & F & S).
        { unfold resumed; cbn [now]. lia. }
        exists (MkInvocation w (Resolved v) w1 :: before), last.
        repeat split; [| exact F | exact S].
        simpl. now apply polls_next.
      * exists [], (MkInvocation w (Resolved v) w1). simpl. repeat split.
        -- now apply polls_last.
        -- intros v' _ _. simpl. simpl in Hdone. lia.
        -- rewrite polling_unfold.
           assert (E' : (now (resumed w1) <? deadline) = false)
             by now apply Z.ltb_ge.
           rewrite E'. unfold settles. simpl. now rewrite T.
  - exists [], (MkInvocation w (Rejected e) w1). simpl. repeat split.
    + now apply polls_last.
    + intros v' Hv'. simpl in Hv'. discriminate.
Qed.

(** Along a polling sequence every invocation is a run of the predicate
    that starts before the deadline. *)
Lemma polls_each (fn : Async JS.Value) (deadline : Z) (w : World)
    (invs : list Invocation) :
  polls fn deadline w invs ->
  Forall (fun i => now (started i) < deadline
                   /\ run fn (started i) = (outcome i, ended i)) invs.
Proof.
  induction 1 as [w o w1 Hlt R | w v w1 rest Hlt R T P IH].
  - constructor; [now split | constructor].
  - constructor; [now split | exact IH].
Qed.

Lemma polls_first (fn : Async JS.Value) (deadline : Z) (w : World)
    (invs : list Invocation) :
  polls fn deadline w invs -> exists i rest, invs = i :: rest /\ started i = w.
Proof. destruct 1; eauto. Qed.

(** An invocation that is followed by another came back falsy, and the next
    one starts exactly when the pause after it is over. *)
Lemma polls_adjacent (fn : Async JS.Value) (deadline : Z) (w : World)
    (invs : list Invocation) :
  polls fn deadline w invs ->
  forall k i j, nth_error invs k = Some i -> nth_error invs (S k) = Some j ->
    started j = resumed (ended i)
    /\ exists v, outcome i = Resolved v /\ JS.truthy v = false.
Proof.
  induction 1 as [w o w1 Hlt R | w v w1 rest Hlt R T P IH]; intros k i j Hi Hj.
  - destruct k; simpl in Hj; [discriminate | destruct k; discriminate].
  - destruct k as [| k].
    + simpl in Hi, Hj. inversion Hi; subst; simpl.
      destruct (polls_first _ _ _ _ P) as (i' & rest' & -> & S').
      simpl in Hj. inversion Hj; subst. split; [exact S' | eauto].
    + simpl in Hi. apply (IH k i j Hi Hj).
Qed.

(** A sequence that ends the loop decides what the loop settles with. *)
Lemma polls_settles (fn : Async JS.Value) (deadline : Z) (w : World)
    (invs : list Invocation) :
  polls fn deadline w invs ->
  forall before last, invs = (before ++ [last])%list -> final deadline last ->
    polling fn deadline w = settles deadline last.
Proof.
  induction 1 as [w o w1 Hlt R | w v w1 rest Hlt R T P IH];
    intros before last E F.
  - destruct before as [| b before]; simpl in E.
    + inversion E; subst. rewrite polling_unfold.
      assert (E1 : (now w <? deadline) = true) by now apply Z.ltb_lt.
      rewrite E1, R. unfold settles. simpl.
      destruct o as [v | e]; [| reflexivity].
      destruct (JS.truthy v) eqn:T; [reflexivity |].
      rewrite polling_unfold.
      assert (E2 : (now (resumed w1) <? deadline) = false).
      { apply Z.ltb_ge. apply (F v); [reflexivity | exact T]. }
      now rewrite E2.
    + inversion E as [[E1 E2]]. destruct before; discriminate.
  - destruct before as [| b before]; simpl in E.
    + inversion E as [[E1 E2]]. subst rest. inversion P.
    + inversion E as [[E1 E2]]. subst b rest.
      rewrite polling_unfold.
      assert (E3 : (now w <? deadline) = true) by now apply Z.ltb_lt.
      rewrite E3, R, T. now apply (IH before last).
Qed.

Lemma polls_invoke_last (fn : Async JS.Value) (deadline : Z) (w : World) :
  now w < deadline -> polls fn deadline w [invoke fn w].
Proof. intros H. apply polls_last; [exact H | apply surjective_pairing]. Qed.

Lemma polls_invoke_next (fn : Async JS.Value) (deadline : Z) (w : World)
    (v : JS.Value) (rest : list Invocation) :
  now w < deadline ->
  fst (run fn w) = Resolved v ->
  JS.truthy v = false ->
  polls fn deadline (resumed (snd (run fn w))) rest ->
  polls fn deadline w (invoke fn w :: rest).
Proof.
  intros H R T P. unfold invoke. rewrite R.
  apply polls_next; [exact H | | exact T | exact P].
  rewrite <- R. apply surjective_pairing.
Qed.

(** C5. Whatever the predicate and the timeout, [waitForFunction] makes a
    sequence of invocations of the predicate that begins at once.  Each one
    begins before the deadline and is over before the next begins; the next
    begins exactly 100 ms after it ended and only when it came back falsy.
    The poller resolves only at the end of the first invocation that comes
    back truthy; it rejects with [Timed out] only when the last invocation
    came back falsy and the pause after it ended at or after the deadline,
    and in that case it always does; the only other way out is an
    invocation that throws. *)
Theorem waitForFunction_polls (fn : Async JS.Value) (timeout : Z) (w : World) :
  let deadline := now w + JS.timer_delay timeout in
  exists (before : list Invocation) (last : Invocation),
    polls fn deadline w (before ++ [last])
    /\ started (hd last before) = w
    /\ Forall (fun i => now (started i) < deadline
                        /\ run fn (started i) = (outcome i, ended i))
              (before ++ [last])
    /\ (forall k i j,
          nth_error (before ++ [last]) k = Some i ->
          nth_error (before ++ [last]) (S k) = Some j ->
          now (started j) = now (ended i) + 100
          /\ trace (started j) = trace (ended i)
          /\ exists v, outcome i = Resolved v /\ JS.truthy v = false)
    /\ match outcome last with
       | Resolved v =>
           if JS.truthy v
           then run (waitForFunction fn timeout) w = (Resolved tt, ended last)
           else run (waitForFunction fn timeout) w
                = (Rejected (JS.error "Timed out"), resumed (ended last))
                /\ deadline <= now (ended last) + 100
       | Rejected e =>
           run (waitForFunction fn timeout) w = (Rejected e, ended last)
       end.
Proof.
  intros deadline.
  assert (Hlt : now w < deadline).
  { unfold deadline. pose proof (timer_delay_pos timeout). lia. }
  destruct (polling_complete fn deadline (iterations deadline w) w Hlt)
    as (before & last & P & F & S).
  { unfold iterations. rewrite Z2Nat.id by (apply Z.div_pos; lia).
    pose proof (Z.div_mod (deadline - now w + 99) 100 ltac:(lia)).
    pose proof (Z.mod_pos_bound (deadline - now w + 99) 100 ltac:(lia)). lia. }
  exists before, last. split; [exact P |]. split; [| split; [| split]].
  - destruct (polls_first _ _ _ _ P) as (i & rest & E & Hi).
    destruct before as [| b before]; simpl in E |- *;
      injection E as E1 E2; rewrite E1; exact Hi.
  - exact (polls_each _ _ _ _ P).
  - intros k i j Hi Hj.
    destruct (polls_adjacent _ _ _ _ P k i j Hi Hj) as [Hs Hv].
    rewrite Hs. simpl. auto.
  - rewrite waitForFunction_polling. fold deadline. rewrite S.
    unfold settles. destruct (outcome last) as [v | e] eqn:O; [| reflexivity].
    destruct (JS.truthy v) eqn:T; [reflexivity |].
    split; [reflexivity |]. apply (F v O T).
Qed.

(** C10. When an invocation of the predicate throws, that invocation is the
    last one: the poller rejects with the very error thrown, in the world
    the failing invocation left, hence without pausing, polling again or
    waiting for the deadline, and the error is not replaced by
    [Timed out]. *)
Theorem waitForFunction_rethrows (fn : Async JS.Value) (timeout : Z) (w : World)
    (before : list Invocation) (last : Invocation) (e : JS.Error) :
  polls fn (now w + JS.timer_delay timeout) w (before ++ [last]) ->
  outcome last = Rejected e ->
  run (waitForFunction fn timeout) w = (Rejected e, ended last).
Proof.
  intros P O. rewrite waitForFunction_polling.
  rewrite (polls_settles _ _ _ _ P before last eq_refl).
  - unfold settles. now rewrite O.
  - intros v Hv. congruence.
Qed.

Lemma waitForFunction_rethrows_witness :
  polls crash_probe (now origin + JS.timer_delay 5000) origin
        ([crash_1; crash_2; crash_3] ++ [crash_4])
  /\ outcome crash_4 = Rejected (JS.MkError "ProtocolError" "Target closed")
  /\ now (ended crash_4) = 320
  /\ run (waitForFunction crash_probe 5000) origin
     = (Rejected (JS.MkError "ProtocolError" "Target closed"), ended crash_4).
Proof.
  assert (P : polls crash_probe (now origin + JS.timer_delay 5000) origin
                    ([crash_1; crash_2; crash_3] ++ [crash_4])).
  { simpl app.
    apply polls_invoke_next with (v := JS.VBool false);
      [reflexivity | reflexivity | reflexivity |].
    apply polls_invoke_next with (v := JS.VBool false);
      [reflexivity | reflexivity | reflexivity |].
    apply polls_invoke_next with (v := JS.VBool false);
      [reflexivity | reflexivity | reflexivity |].
    apply polls_invoke_last. reflexivity. }
  split; [exact P |]. split; [reflexivity |]. split; [reflexivity |].
  apply (waitForFunction_rethrows crash_probe 5000 origin
           [crash_1; crash_2; crash_3] crash_4 _ P).
  reflexivity.
Defined.

(** ** The Element Locator *)

Lemma waitForSelectors_from_attempts (env : Env) (all : list Selector)
    (frame : Page) (options : WaitOptions) (rest : list Selector) :
  forall w,
    match run (waitForSelectors_from env all rest frame options) w with
    | (Resolved handle, w') =>
        exists failed selector later w1,
          rest = (failed ++ selector :: later)%list
          /\ rejected_in_turn env frame options failed w w1
          /\ run (waitForSelector env selector frame options) w1
             = (Resolved handle, w')
    | (Rejected e, w') =>
        e = JS.error ("Could not find element for selectors: "
                      ++ stringify_selectors all)
        /\ rejected_in_turn env frame options rest w w'
    end.
Proof.
  induction rest as [| selector rest IH]; intros w.
  - simpl. split; [reflexivity | constructor].
  - cbn [waitForSelectors_from]. rewrite run_try_catch.
    destruct (run (waitForSelector env selector frame options) w)
      as [[handle | e] w1] eqn:R.
    + exists [], selector, rest, w. repeat split; [constructor | exact R].
    + specialize (IH w1).
      destruct (run (waitForSelectors_from env all rest frame options) w1)
        as [[handle | e'] w'].
      * destruct IH as (failed & s' & later & w2 & E & F & S).
        exists (selector :: failed), s', later, w2. subst rest.
        repeat split; [| exact S]. econstructor; eauto.
      * destruct IH as [E F]. split; [exact E |]. econstructor; eauto.
Qed.

(** A strategy that has steps and is rejected has used up a timeout, when
    lookups fail in no other way. *)
Lemma waitForSelector_steps_patient (env : Env) (selector : list string)
    (frame : Page) (options : WaitOptions) :
  lookups_time_out env ->
  forall rest element w, rest <> [] ->
    match run (waitForSelector_steps env selector frame options element rest) w with
    | (Resolved found, _) => found <> None
    | (Rejected _, w') => now w + timeout options <= now w'
    end.
Proof.
  intros [Hlook Hshadow].
  induction rest as [| part rest IH]; intros element w Hne; [congruence |].
  cbn [waitForSelector_steps]. rewrite run_bind, run_call.
  specialize (Hlook (root_of frame element) part options w).
  destruct (env _ (root_waitForSelector (root_of frame element) part options) w)
    as [[[el |] | e] took]; cbn [fst snd] in *.
  - destruct rest as [| part' rest].
    + simpl. congruence.
    + rewrite run_bind, run_call.
      destruct (Hshadow el
                  (MkWorld (now w + Z.of_N took)
                     (trace w ++
                      [EvCall (now w)
                         (root_waitForSelector (root_of frame element) part options)
                         took (Resolved (Some el))])%list)) as [inner Hin].
      rewrite Hin.
      match goal with
      | |- context [run (waitForSelector_steps env selector frame options inner
                           (part' :: rest)) ?w2] =>
          specialize (IH inner w2 ltac:(congruence));
          destruct (run (waitForSelector_steps env selector frame options inner
                           (part' :: rest)) w2) as [[found | e] w3];
          [exact IH | simpl in IH; lia]
      end.
  - simpl. lia.
  - simpl. lia.
Qed.

Lemma waitForSelector_patient (env : Env) (selector : Selector) (frame : Page)
    (options : WaitOptions) (w w' : World) (e : JS.Error) :
  lookups_time_out env ->
  has_steps selector = true ->
  run (waitForSelector env selector frame options) w = (Rejected e, w') ->
  now w + timeout options <= now w'.
Proof.
  intros Henv Hs R. unfold waitForSelector, has_steps in *.
  destruct (steps_of selector) as [| part rest] eqn:E; [discriminate |].
  rewrite run_bind in R.
  pose proof (waitForSelector_steps_patient env (part :: rest) frame options
                Henv (part :: rest) None w ltac:(congruence)) as H.
  destruct (run (waitForSelector_steps env (part :: rest) frame options None
                   (part :: rest)) w) as [[[el |] | e'] w1].
  - simpl in R. discriminate.
  - congruence.
  - inversion R; subst. exact H.
Qed.

Lemma rejected_in_turn_extends (env : Env) (frame : Page) (options : WaitOptions)
    (selectors : list Selector) (w w' : World) :
  rejected_in_turn env frame options selectors w w' -> now w <= now w'.
Proof.
  induction 1 as [w | selector rest w e w1 w2 R _ IH]; [lia |].
  pose proof (run_extends (waitForSelector env selector frame options) w) as [H _].
  rewrite R in H. simpl in H. lia.
Qed.

Lemma rejected_in_turn_patient (env : Env) (frame : Page) (options : WaitOptions)
    (selectors : list Selector) (w w' : World) :
  lookups_time_out env ->
  0 <= timeout options ->
  rejected_in_turn env frame options selectors w w' ->
  now w + timeout options * Z.of_nat (List.length (filter has_steps selectors))
  <= now w'.
Proof.
  intros Henv Hpos. induction 1 as [w | selector rest w e w1 w2 R _ IH].
  - simpl. lia.
  - cbn [filter]. destruct (has_steps selector) eqn:Hs.
    + pose proof (waitForSelector_patient _ _ _ _ _ _ _ Henv Hs R).
      cbn [List.length]. rewrite Nat2Z.inj_succ. nia.
    + pose proof (run_extends (waitForSelector env selector frame options) w)
        as [H _].
      rewrite R in H. simpl in H. lia.
Qed.

(** C4, as the code has it.  When [waitForSelectors] resolves, the handle is
    the one of the first strategy, in listed order, that resolves: every
    strategy before it was attempted and rejected, and the world is the one
    that strategy left, so that no strategy after it is attempted.  When it
    rejects, the error carries the JSON text of the full list and every
    strategy was attempted in listed order and rejected.  Such a failure
    takes at least one timeout for every strategy that has a step, when
    lookups fail in no other way than by timing out; a strategy without
    steps is rejected at once. *)
Theorem waitForSelectors_first_success (env : Env) (selectors : list Selector)
    (frame : Page) (options : WaitOptions) (w : World) :
  match run (waitForSelectors env selectors frame options) w with
  | (Resolved handle, w') =>
      exists failed selector later w1,
        selectors = (failed ++ selector :: later)%list
        /\ rejected_in_turn env frame options failed w w1
        /\ run (waitForSelector env selector frame options) w1
           = (Resolved handle, w')
  | (Rejected e, w') =>
      e = JS.error ("Could not find element for selectors: "
                    ++ stringify_selectors selectors)
      /\ rejected_in_turn env frame options selectors w w'
      /\ (lookups_time_out env -> 0 <= timeout options ->
          now w + timeout options
                  * Z.of_nat (List.length (filter has_steps selectors))
          <= now w')
  end
  /\ run (waitForSelector env (SelArray []) frame options) w
     = (Rejected (JS.error "Empty selector provided to waitForSelector"), w).
Proof.
  split; [| reflexivity].
  unfold waitForSelectors.
  pose proof (waitForSelectors_from_attempts env selectors frame options
                selectors w) as H.
  destruct (run (waitForSelectors_from env selectors selectors frame options) w)
    as [[handle | e] w']; [exact H |].
  destruct H as [E F]. repeat split; [exact E | exact F |].
  intros Henv Hpos.
  exact (rejected_in_turn_patient env frame options selectors w w' Henv Hpos F).
Qed.

Lemma blank_portal_times_out : lookups_time_out (portal_env blank_portal).
Proof.
  split.
  - intros root part options w. simpl. lia.
  - intros element w. simpl. eauto.
Qed.

Lemma waitForSelectors_first_success_witness :
  lookups_time_out (portal_env blank_portal)
  /\ 0 <= 5000
  /\ now origin + 5000 * 2
     <= now (snd (run (waitForSelectors (portal_env blank_portal)
                         [SelArray ["aria/Email *"]; SelArray ["#user_email"]]
                         1%nat (MkWaitOptions 5000 true)) origin)).
Proof.
  split; [exact blank_portal_times_out |]. split; [lia |].
  pose proof (waitForSelectors_first_success (portal_env blank_portal)
                [SelArray ["aria/Email *"]; SelArray ["#user_email"]]
                1%nat (MkWaitOptions 5000 true) origin) as [H _].
  destruct (run (waitForSelectors (portal_env blank_portal)
                   [SelArray ["aria/Email *"]; SelArray ["#user_email"]]
                   1%nat (MkWaitOptions 5000 true)) origin)
    as [[handle | e] w'] eqn:R.
  - vm_compute in R. discriminate R.
  - destruct H as (_ & _ & T). simpl snd.
    apply (T blank_portal_times_out). simpl. lia.
Defined.

(** C4, as stated, fails: the set made of one strategy that has no steps is
    rejected at once, 5000 ms before the timeout of that strategy is over. *)
Lemma empty_strategy_does_not_wait :
  ~ waits_for_every_timeout (portal_env blank_portal) [SelArray []] 1%nat
      (MkWaitOptions 5000 true) origin.
Proof.
  intros H.
  specialize (H (JS.error "Could not find element for selectors: [[]]") origin
                eq_refl).
  simpl in H. lia.
Qed.

(** C9. Given no strategy at all, [waitForSelectors] rejects at once,
    without a single lookup, with its not-found error for the empty list;
    so whenever it resolves with a handle, a strategy had been supplied. *)
Theorem waitForSelectors_needs_a_strategy (env : Env) (frame : Page)
    (options : WaitOptions) (w : World) :
  run (waitForSelectors env [] frame options) w
  = (Rejected (JS.error "Could not find element for selectors: []"), w)
  /\ forall selectors,
       match run (waitForSelectors env selectors frame options) w with
       | (Resolved _, _) => exists selector rest, selectors = selector :: rest
       | (Rejected _, _) => True
       end.
Proof.
  split; [reflexivity |].
  intros [| selector rest]; [exact I |].
  destruct (run (waitForSelectors env (selector :: rest) frame options) w)
    as [[handle | e] w']; eauto.
Qed.

(** ** The Form Interaction Helper *)

(** The list in the source holds exactly the values of [el.type] that the
    named categories stand for. *)
Lemma typeable_categories (ty : option string) :
  typeable_includes ty =
  match category_of ty with
  | OtherCategory => false
  | _ => true
  end.
Proof.
  destruct ty as [s |]; [| reflexivity].
  unfold typeable_includes, typeable, category_of, existsb.
  destruct (String.eqb s "textarea"), (String.eqb s "select-one"),
    (String.eqb s "text"), (String.eqb s "url"), (String.eqb s "tel"),
    (String.eqb s "search"), (String.eqb s "password"),
    (String.eqb s "number"), (String.eqb s "email"); reflexivity.
Qed.

Lemma new_events_one (w : World) (t : Z) (e1 : Event) :
  new_events w (MkWorld t (trace w ++ [e1])%list) = [e1].
Proof. apply new_events_app. Qed.

Lemma new_events_two (w : World) (t : Z) (e1 e2 : Event) :
  new_events w (MkWorld t ((trace w ++ [e1]) ++ [e2])%list) = [e1; e2].
Proof. rewrite <- app_assoc. apply new_events_app. Qed.

Lemma new_events_three (w : World) (t : Z) (e1 e2 e3 : Event) :
  new_events w (MkWorld t (((trace w ++ [e1]) ++ [e2]) ++ [e3])%list)
  = [e1; e2; e3].
Proof. rewrite <- !app_assoc. apply new_events_app. Qed.

(** C7. The helper first asks the element for its [type].  When the type
    belongs to one of the named categories, the only thing it does next is
    [element.type(value)], puppeteer's keystroke-by-keystroke input.  For
    any other type, [undefined] included, it focuses the element and then
    runs one page function that sets the value and dispatches two events,
    [input] first and [change] second, both bubbling. *)
Theorem typeInto_by_category (env : Env) (element : ElementHandle)
    (value : option string) (w : World) :
  let asked := run (call env (element_evaluate_type element)) w in
  let done := requests (new_events w (snd (run (typeInto env element value) w))) in
  match fst asked with
  | Rejected _ => done = [Req (element_evaluate_type element)]
  | Resolved ty =>
      match category_of ty with
      | OtherCategory =>
          done = Req (element_evaluate_type element)
                 :: Req (element_focus element)
                 :: match fst (run (call env (element_focus element)) (snd asked)) with
                    | Resolved _ =>
                        [Req (element_evaluate element
                                [SetValue value; DispatchEvent "input" true;
                                 DispatchEvent "change" true])]
                    | Rejected _ => []
                    end
      | _ =>
          done = [Req (element_evaluate_type element);
                  Req (element_type element value)]
      end
  end.
Proof.
  intros asked done. subst asked done.
  unfold typeInto. rewrite !run_bind, !run_call. cbn [fst snd now trace].
  destruct (env _ (element_evaluate_type element) w) as [[ty | e] took1];
    cbn [fst snd now trace].
  - rewrite typeable_categories.
    destruct (category_of ty);
      try (rewrite run_call; cbn [fst snd now trace]; rewrite new_events_two; reflexivity).
    rewrite run_bind, run_call. cbn [fst snd now trace].
    match goal with
    | |- context [env unit (element_focus element) ?w1] =>
        destruct (env unit (element_focus element) w1) as [[[] | e] took2]
    end; cbn [fst snd now trace].
    + rewrite run_call. cbn [fst snd now trace]. rewrite new_events_three. reflexivity.
    + rewrite new_events_two. reflexivity.
  - rewrite new_events_one. reflexivity.
Qed.

(** ** The Visibility Guarantor *)

(** The attachment poll is over after one probe: the handle that
    [getProperty] resolves with is an object, and an object is truthy. *)
Lemma waitForConnected_run (env : Env) (element : ElementHandle) (timeout : Z)
    (w : World) :
  run (waitForConnected env element timeout) w =
  match run (call env (element_getProperty element "isConnected")) w with
  | (Resolved _, w1) => (Resolved tt, w1)
  | (Rejected e, w1) => (Rejected e, w1)
  end.
Proof.
  unfold waitForConnected. rewrite waitForFunction_polling, polling_unfold.
  assert (E : (now w <? now w + JS.timer_delay timeout) = true).
  { apply Z.ltb_lt. pose proof (timer_delay_pos timeout). lia. }
  rewrite E. unfold isConnected_handle. rewrite run_bind.
  destruct (run (call env (element_getProperty element "isConnected")) w)
    as [[h | e] w1]; reflexivity.
Qed.

(** C6, as the code has it.  The Guarantor runs the attachment poll first
    and fails with its error if it fails.  After it, the element is asked
    once whether it intersects the viewport (threshold 0): if so the
    Guarantor returns and no scroll was requested; if not it requests one
    scroll to the centre, block and inline, with behavior [auto], and then
    polls the same question until the answer is true, failing with
    [Timed out] when an answer is still false once the deadline set after
    the scroll has passed. *)
Theorem scrollIntoViewIfNeeded_steps (env : Env) (element : ElementHandle)
    (timeout : Z) (w : World) :
  let attach := run (waitForConnected env element timeout) w in
  let whole := run (scrollIntoViewIfNeeded env element timeout) w in
  match fst attach with
  | Rejected e => whole = (Rejected e, snd attach)
  | Resolved _ =>
      let check :=
        run (call env (element_isIntersectingViewport element 0)) (snd attach) in
      match fst check with
      | Rejected e => whole = (Rejected e, snd check)
      | Resolved true =>
          whole = (Resolved tt, snd check)
          /\ scrolls (new_events (snd attach) (snd whole)) = []
      | Resolved false =>
          let scroll :=
            run (call env (element_evaluate element
                             [ScrollIntoView "center" "center" "auto"]))
                (snd check) in
          match fst scroll with
          | Rejected e => whole = (Rejected e, snd scroll)
          | Resolved _ =>
              let deadline := now (snd scroll) + JS.timer_delay timeout in
              exists before last,
                polls (intersects env element) deadline (snd scroll)
                      (before ++ [last])
                /\ match outcome last with
                   | Resolved v =>
                       if JS.truthy v
                       then v = JS.VBool true
                            /\ whole = (Resolved tt, ended last)
                       else whole = (Rejected (JS.error "Timed out"),
                                     resumed (ended last))
                            /\ deadline <= now (ended last) + 100
                   | Rejected e => whole = (Rejected e, ended last)
                   end
          end
      end
  end.
Proof.
  intros attach whole. subst attach whole.
  unfold scrollIntoViewIfNeeded. rewrite run_bind.
  destruct (run (waitForConnected env element timeout) w) as [[[] | e] w0];
    cbn [fst snd]; [| reflexivity].
  rewrite run_bind.
  destruct (run (call env (element_isIntersectingViewport element 0)) w0)
    as [[[|] | e] w1] eqn:C; cbn [fst snd]; [| | reflexivity].
  - split; [reflexivity |]. cbn [run ret ret_raw snd].
    replace w1
      with (snd (run (call env (element_isIntersectingViewport element 0)) w0))
      by now rewrite C.
    rewrite run_call. cbn [snd]. rewrite new_events_one. reflexivity.
  - rewrite run_bind.
    match goal with
    | |- context [run (call env (element_evaluate element ?stmts)) ?w1] =>
        destruct (run (call env (element_evaluate element stmts)) w1)
          as [[[] | e] w2]
    end; cbn [fst snd]; [| reflexivity].
    unfold waitForInViewport. rewrite waitForFunction_polling.
    set (deadline := now w2 + JS.timer_delay timeout).
    assert (Hlt : now w2 < deadline).
    { unfold deadline. pose proof (timer_delay_pos timeout). lia. }
    destruct (polling_complete (intersects env element) deadline
                (iterations deadline w2) w2 Hlt) as (before & last & P & F & S).
    { unfold iterations. rewrite Z2Nat.id by (apply Z.div_pos; lia).
      pose proof (Z.div_mod (deadline - now w2 + 99) 100 ltac:(lia)).
      pose proof (Z.mod_pos_bound (deadline - now w2 + 99) 100 ltac:(lia)). lia. }
    exists before, last. split; [exact P |].
    rewrite S. unfold settles.
    destruct (outcome last) as [v | e] eqn:O; [| reflexivity].
    destruct (JS.truthy v) eqn:T.
    + split; [| reflexivity].
      pose proof (polls_each _ _ _ _ P) as HF.
      rewrite Forall_forall in HF.
      destruct (HF last ltac:(apply in_or_app; right; left; reflexivity))
        as [_ R].
      unfold intersects in R. rewrite run_bind in R.
      destruct (run (call env (element_isIntersectingViewport element 0))
                    (started last)) as [[b | e] w3];
        rewrite O in R; inversion R; subst.
      simpl in T. now rewrite T.
    + split; [reflexivity |]. apply (F v O T).
Qed.

(** C6, as stated, fails twice on a page whose element is not attached and
    out of view: the attachment poll resolves although the only report it
    got says the element is not attached, and the scroll that follows is
    requested with behavior [auto], not [smooth]. *)
Lemma detached_element_is_scrolled_to :
  ~ waits_until_attached (portal_env detached_portal) 7%nat 5000 origin
  /\ ~ scrolls_smoothly (portal_env detached_portal) 7%nat 5000 origin.
Proof.
  split.
  - intros H. specialize (H _ eq_refl). vm_compute in H.
    destruct H as [H | []]. discriminate H.
  - intros H.
    specialize (H (ScrollIntoView "center" "center" "auto")).
    assert (E : ScrollIntoView "center" "center" "auto"
                = ScrollIntoView "center" "center" "smooth").
    { apply H. vm_compute. left. reflexivity. }
    discriminate E.
Qed.

(** ** The browser session along the sign-in *)

Lemma new_events_trans (w1 w2 w3 : World) :
  extends w1 w2 -> extends w2 w3 ->
  new_events w1 w3 = (new_events w1 w2 ++ new_events w2 w3)%list.
Proof.
  intros H12 H23.
  pose proof (new_events_extends _ _ H12) as E12.
  pose proof (new_events_extends _ _ H23) as E23.
  pose proof (new_events_extends _ _ (extends_trans _ _ _ H12 H23)) as E13.
  rewrite E23, E12, <- app_assoc in E13.
  now apply app_inv_head in E13.
Qed.

Lemma new_events_refl (w : World) : new_events w w = [].
Proof.
  unfold new_events. induction (trace w) as [| x l IH]; simpl; auto.
Qed.

Lemma closes_app (l1 l2 : list Event) :
  closes (l1 ++ l2) = (closes l1 + closes l2)%nat.
Proof. unfold closes. now rewrite filter_app, length_app. Qed.

Lemma logged_app (l1 l2 : list Event) :
  logged (l1 ++ l2) = (logged l1 ++ logged l2)%list.
Proof. apply flat_map_app. Qed.

Lemma pushes_app (l1 l2 : list Event) :
  pushes (l1 ++ l2) = (pushes l1 ++ pushes l2)%list.
Proof. apply flat_map_app. Qed.

(** A computation that never asks the browser to close. *)
Definition keeps_open {A} (m : Async A) : Prop :=
  forall w, closes (new_events w (snd (run m w))) = 0%nat.

Lemma keeps_open_ret {A} (a : A) : keeps_open (ret a).
Proof. intros w. simpl. now rewrite new_events_refl. Qed.

Lemma keeps_open_throw {A} (e : JS.Error) : keeps_open (@throw A e).
Proof. intros w. simpl. now rewrite new_events_refl. Qed.

Lemma keeps_open_log (msg : string) : keeps_open (log msg).
Proof. intros w. rewrite run_log. cbn [snd]. now rewrite new_events_one. Qed.

Lemma keeps_open_call (env : Env) {A} (c : Call A) :
  (forall t took r, is_close (EvCall t c took r) = false) ->
  keeps_open (call env c).
Proof.
  intros H w. rewrite run_call. cbn [snd]. rewrite new_events_one.
  unfold closes. cbn [filter]. now rewrite H.
Qed.

Lemma keeps_open_bind {A B} (m : Async A) (k : A -> Async B) :
  keeps_open m -> (forall a, keeps_open (k a)) -> keeps_open (bind m k).
Proof.
  intros Hm Hk w. rewrite run_bind.
  specialize (Hm w). pose proof (run_extends m w) as Em.
  destruct (run m w) as [[a | e] w1]; cbn [snd] in *; [| exact Hm].
  rewrite (new_events_trans w w1 _ Em (run_extends (k a) w1)), closes_app.
  now rewrite Hm, Hk.
Qed.

Lemma keeps_open_try_catch {A} (m : Async A) (handler : JS.Error -> Async A) :
  keeps_open m -> (forall e, keeps_open (handler e)) ->
  keeps_open (try_catch m handler).
Proof.
  intros Hm Hh w. rewrite run_try_catch.
  specialize (Hm w). pose proof (run_extends m w) as Em.
  destruct (run m w) as [[a | e] w1]; cbn [snd] in *; [exact Hm |].
  rewrite (new_events_trans w w1 _ Em (run_extends (handler e) w1)), closes_app.
  now rewrite Hm, Hh.
Qed.

Lemma keeps_open_waitForFunction (fn : Async JS.Value) (timeout : Z) :
  keeps_open fn -> keeps_open (waitForFunction fn timeout).
Proof.
  intros Hfn w. cbn [run waitForFunction]. unfold waitForFunction_raw.
  generalize (now w + JS.timer_delay timeout) as deadline.
  intros deadline. generalize (iterations deadline w) as fuel.
  intros fuel. revert w.
  induction fuel as [| fuel IH]; intros w; cbn [poll].
  - destruct (now w <? deadline); simpl; now rewrite new_events_refl.
  - destruct (now w <? deadline); [| simpl; now rewrite new_events_refl].
    specialize (Hfn w). pose proof (run_extends fn w) as Efn.
    destruct (run fn w) as [[v | e] w1]; cbn [snd] in *; [| exact Hfn].
    destruct (JS.truthy v); [exact Hfn |].
    rewrite sleep_100.
    assert (E1 : extends w1 (resumed w1)).
    { split; simpl; [lia | exists []; now rewrite app_nil_r]. }
    rewrite (new_events_trans w (resumed w1) _
               (extends_trans _ _ _ Efn E1) (poll_extends _ _ _ _)).
    rewrite closes_app, IH.
    rewrite (new_events_trans w w1 _ Efn E1), closes_app, Hfn.
    unfold new_events, resumed. simpl.
    replace (skipn (List.length (trace w1)) (trace w1)) with (@nil Event);
      [reflexivity |].
    symmetry. apply (new_events_refl w1).
Qed.

Ltac keep_open :=
  repeat first
    [ apply keeps_open_bind; [| intros ?]
    | apply keeps_open_try_catch; [| intros ?]
    | apply keeps_open_waitForFunction
    | apply keeps_open_log
    | apply keeps_open_ret
    | apply keeps_open_throw
    | apply keeps_open_call; intros; reflexivity ].

Lemma keeps_open_waitForSelector_steps (env : Env) (all : list string)
    (frame : Page) (options : WaitOptions) (rest : list string) :
  forall element,
    keeps_open (waitForSelector_steps env all frame options element rest).
Proof.
  induction rest as [| part rest IH]; intros element;
    cbn [waitForSelector_steps].
  - apply keeps_open_ret.
  - apply keeps_open_bind; [apply keeps_open_call; intros; reflexivity |].
    intros [el |]; [| apply keeps_open_throw].
    destruct rest as [| part' rest']; [apply IH |].
    apply keeps_open_bind; [apply keeps_open_call; intros; reflexivity |].
    intros inner. apply IH.
Qed.

Lemma keeps_open_waitForSelector (env : Env) (selector : Selector)
    (frame : Page) (options : WaitOptions) :
  keeps_open (waitForSelector env selector frame options).
Proof.
  unfold waitForSelector.
  destruct (steps_of selector) as [| part rest]; [apply keeps_open_throw |].
  apply keeps_open_bind; [apply keeps_open_waitForSelector_steps |].
  intros [el |]; [apply keeps_open_ret | apply keeps_open_throw].
Qed.

Lemma keeps_open_waitForSelectors (env : Env) (selectors : list Selector)
    (frame : Page) (options : WaitOptions) :
  keeps_open (waitForSelectors env selectors frame options).
Proof.
  unfold waitForSelectors. generalize selectors at 1 as all. intros all.
  induction selectors as [| selector rest IH]; cbn [waitForSelectors_from].
  - apply keeps_open_throw.
  - apply keeps_open_try_catch; [apply keeps_open_waitForSelector |].
    intros _. exact IH.
Qed.

Lemma keeps_open_scrollIntoViewIfNeeded (env : Env) (element : ElementHandle)
    (timeout : Z) :
  keeps_open (scrollIntoViewIfNeeded env element timeout).
Proof.
  unfold scrollIntoViewIfNeeded, waitForConnected, waitForInViewport,
    isConnected_handle, intersects.
  keep_open.
  match goal with
  | |- keeps_open (if ?b then _ else _) => destruct b
  end; keep_open.
Qed.

Lemma keeps_open_typeInto (env : Env) (element : ElementHandle)
    (value : option string) :
  keeps_open (typeInto env element value).
Proof.
  unfold typeInto. keep_open.
  match goal with
  | |- keeps_open (if ?b then _ else _) => destruct b
  end; keep_open.
Qed.

Lemma keeps_open_locate (env : Env) {A} (selectors : list Selector)
    (page : Page) (options : WaitOptions) (timeout : Z)
    (k : ElementHandle -> Async A) :
  (forall element, keeps_open (k element)) ->
  keeps_open (element <- waitForSelectors env selectors page options ;;
              scrollIntoViewIfNeeded env element timeout ;;
              k element).
Proof.
  intros Hk.
  apply keeps_open_bind; [apply keeps_open_waitForSelectors | intros element].
  apply keeps_open_bind; [apply keeps_open_scrollIntoViewIfNeeded | intros _].
  apply Hk.
Qed.

Ltac keep_calls :=
  repeat first
    [ apply keeps_open_log
    | apply keeps_open_typeInto
    | apply keeps_open_call; intros; reflexivity
    | apply keeps_open_bind; [| intros ?] ].

(** Nothing up to and including the query closes the browser. *)
Lemma keeps_open_signInAndQuery (env : Env) (args : Args) (page : Page)
    (agent : string) (timeout : Z) :
  keeps_open (signInAndQuery env args page agent timeout).
Proof.
  unfold signInAndQuery.
  apply keeps_open_bind; [apply keeps_open_log | intros _].
  apply keeps_open_bind; [unfold setViewport; keep_calls | intros _].
  apply keeps_open_bind; [unfold gotoLogin; keep_calls | intros _].
  apply keeps_open_bind;
    [unfold clickUsername; apply keeps_open_locate; intros; keep_calls
    | intros _].
  apply keeps_open_bind;
    [unfold typeUsername; apply keeps_open_locate; intros; keep_calls
    | intros _].
  apply keeps_open_bind; [unfold hitTab; keep_calls | intros _].
  apply keeps_open_bind;
    [unfold typePassword; apply keeps_open_locate; intros; keep_calls
    | intros _].
  apply keeps_open_bind;
    [unfold tickAgreement; apply keeps_open_locate; intros; keep_calls
    | intros _].
  apply keeps_open_bind;
    [unfold clickLogin; apply keeps_open_locate; intros; keep_calls
    | intros _].
  unfold fetchAvailableDates. keep_calls.
Qed.

(** ** The decision on the answer of the portal *)

Lemma run_bind_assoc {A B C} (m : Async A) (k1 : A -> Async B)
    (k2 : B -> Async C) (w : World) :
  run (bind (bind m k1) k2) w = run (bind m (fun a => bind (k1 a) k2)) w.
Proof. rewrite !run_bind. destruct (run m w) as [[a | e] w1]; reflexivity. Qed.

Lemma run_log_bind {A} (msg : string) (k : unit -> Async A) (w : World) :
  run (bind (log msg) k) w = run (k tt) (with_log w msg).
Proof. reflexivity. Qed.

Lemma extends_with_log (w : World) (msg : string) : extends w (with_log w msg).
Proof. split; simpl; [lia | eauto]. Qed.

Lemma new_events_with_log (w : World) (msg : string) :
  new_events w (with_log w msg) = [EvLog (now w) msg].
Proof. apply new_events_one. Qed.

(** What a computation adds after a line was logged comes after that line. *)
Lemma new_events_after_log {A} (m : Async A) (w : World) (msg : string) :
  new_events w (snd (run m (with_log w msg)))
  = EvLog (now w) msg
    :: new_events (with_log w msg) (snd (run m (with_log w msg))).
Proof.
  rewrite (new_events_trans w (with_log w msg) _
             (extends_with_log w msg) (run_extends m _)).
  now rewrite new_events_with_log.
Qed.

Lemma prefix_app (s x : string) : String.prefix s (s ++ x) = true.
Proof.
  induction s as [| a s IH]; simpl; [now destruct x |].
  destruct (ascii_dec a a); [exact IH | congruence].
Qed.

Lemma announces_noDates (x : string) :
  announces ("There are no available dates for consulate with id " ++ x)
  = Some NoSlotsAtAll.
Proof. unfold announces. now rewrite prefix_app. Qed.

Lemma announces_dates (x : string) :
  announces ("There are available dates. Your current date is " ++ x) = None.
Proof. reflexivity. Qed.

Lemma announces_earlier (x : string) :
  announces ("There is an earlier date available for the appointment! " ++ x)
  = Some ScheduledEarlierFound.
Proof. unfold announces. rewrite prefix_app. reflexivity. Qed.

Lemma announces_noEarlier (x : string) :
  announces ("No earlier date available yet. First available date: " ++ x)
  = Some NoEarlierAvailable.
Proof. unfold announces. rewrite prefix_app. reflexivity. Qed.

(** C1, as the code has it.  Whatever sequence of slots the query resolves
    with, the workflow reaches exactly one decision: [NoSlotsAtAll] when the
    sequence is empty, whatever the threshold; otherwise
    [ScheduledEarlierFound] when the date of the first slot of the sequence
    is a valid date strictly before the threshold date, and
    [NoEarlierAvailable] when it is not.  When sign-in or the query fails,
    the workflow fails with the same error and decides nothing. *)
Theorem decision_by_first_slot (env : Env) (host : JS.Host) (args : Args)
    (browser : Browser) (page : Page) (agent : string) (timeout : Z)
    (w : World) :
  let whole := run (runPuppeteerLogic env host args browser page agent timeout) w in
  match run (signInAndQuery env args page agent timeout) w with
  | (Rejected e, w1) => whole = (Rejected e, w1)
  | (Resolved availableDates, w1) =>
      let reached := decision (logged (new_events w1 (snd whole))) in
      match availableDates with
      | [] => reached = Some NoSlotsAtAll
      | first :: _ =>
          reached =
          Some (if JS.Date_lt (JS.new_Date host (Some (date first)))
                              (currentDate host args)
                then ScheduledEarlierFound
                else NoEarlierAvailable)
      end
  end.
Proof.
  intros whole. subst whole. unfold runPuppeteerLogic. rewrite run_bind.
  destruct (run (signInAndQuery env args page agent timeout) w)
    as [[availableDates | e] w1]; [| reflexivity].
  destruct availableDates as [| first rest]; cbn [checkAvailableDates].
  - rewrite !run_bind_assoc, run_log_bind, new_events_after_log.
    cbn [logged flat_map app decision].
    unfold noDatesMessage. now rewrite announces_noDates.
  - rewrite !run_bind_assoc, run_log_bind, new_events_after_log.
    cbn [logged flat_map app decision].
    unfold datesMessage at 1. rewrite announces_dates.
    destruct (JS.Date_lt (JS.new_Date host (Some (date first)))
                         (currentDate host args)).
    + rewrite !run_bind_assoc. cbn beta.
      rewrite run_log_bind, new_events_after_log.
      cbn [logged flat_map app decision].
      unfold earlierMessage at 1. now rewrite announces_earlier.
    + rewrite !run_bind_assoc. cbn beta.
      rewrite run_log_bind, new_events_after_log.
      cbn [logged flat_map app decision].
      unfold noEarlierMessage at 1. now rewrite announces_noEarlier.
Qed.

(** The decision does not look beyond the first slot: C1, as stated, fails
    on an answer that lists a later day first.  The earliest day, 1 May, is
    before the threshold of 22 June, and the workflow announces that no
    earlier date is available. *)
Lemma later_first_slot_hides_earlier_one :
  ~ decides_by_earliest JS.utc (sample_args None)
      [MkSlot "2022-07-01"; MkSlot "2022-05-01"]
      (trace (snd (run (main (portal_env
                                (open_portal
                                   [MkSlot "2022-07-01"; MkSlot "2022-05-01"]
                                   (Resolved tt)))
                             JS.utc (sample_args None)) origin))).
Proof.
  intros [_ H].
  assert (E : JS.Date_lt
                (earliest (slot_dates JS.utc
                             [MkSlot "2022-07-01"; MkSlot "2022-05-01"]))
                (currentDate JS.utc (sample_args None)) = true)
    by (vm_compute; reflexivity).
  apply H in E. vm_compute in E. discriminate E.
Qed.

(** When the answer lists valid dates in ascending order, its first date is
    its earliest. *)
Lemma earliest_of_ascending (dates : list JS.Date) :
  ascending dates = true -> earliest dates = hd None dates.
Proof.
  induction dates as [| [t |] rest IH]; [reflexivity | | discriminate].
  destruct rest as [| [t' |] rest']; [reflexivity | | discriminate].
  intros H. cbn [ascending] in H. apply andb_prop in H as [H1 H2].
  specialize (IH H2). cbn [earliest hd] in IH |- *. rewrite IH.
  apply Z.leb_le in H1. f_equal. lia.
Qed.

(** ** Scenario A and the Notifier *)

Ltac run_eval :=
  cbn [run bind try_catch log console_error set process_exit ret throw call
       clock with_log];
  unfold bind_raw, try_catch_raw, call_raw, emit, ret_raw, throw_raw, clock_raw;
  cbn [fst snd now trace].

Ltac answer env :=
  rewrite ?run_bind, ?run_call;
  match goal with
  | |- context [env ?A ?c ?w] => destruct (env A c w) as [[? | ?] ?]
  end; cbn [fst snd now trace]; run_eval.

Ltac list_events :=
  rewrite <- ?app_assoc, new_events_app;
  cbn [app logged pushes closes filter is_close List.length flat_map push_of].

(** The date a time value prints as depends on its local day only. *)
Lemma DateString_of_day (host : JS.Host) (tv day : Z) :
  JS.Day (JS.LocalTime host tv) = day ->
  JS.DateString host tv = JS.DateString JS.utc (day * JS.msPerDay).
Proof.
  intros H.
  assert (E : JS.Day (JS.LocalTime JS.utc (day * JS.msPerDay)) = day).
  { unfold JS.LocalTime, JS.Day. simpl JS.LocalTZA. rewrite Z.add_0_r.
    apply Z.div_mul. discriminate. }
  unfold JS.DateString, JS.WeekDay, JS.MonthFromTime, JS.DateFromTime,
    JS.MonthFromTime, JS.InLeapYear, JS.DayWithinYear, JS.YearFromTime.
  now rewrite H, E.
Qed.

(** 2022-05-01 prints as 1 May or as 30 April, according to the zone. *)
Lemma DateString_2022_05_01 (host : JS.Host) :
  - JS.msPerDay < JS.LocalTZA host 1651363200000 < JS.msPerDay ->
  JS.DateString host 1651363200000 = "Sun May 01 2022"
  \/ JS.DateString host 1651363200000 = "Sat Apr 30 2022".
Proof.
  intros H.
  assert (D : JS.Day (JS.LocalTime host 1651363200000) = 19113
              \/ JS.Day (JS.LocalTime host 1651363200000) = 19112).
  { unfold JS.Day, JS.LocalTime, JS.msPerDay in *.
    set (off := JS.LocalTZA host 1651363200000) in *.
    Z.div_mod_to_equations. lia. }
  destruct D as [D | D]; [left | right];
    rewrite (DateString_of_day host _ _ D); vm_compute; reflexivity.
Qed.




(** The Notifier does not catch a refused push request.  When a token is
    configured and the push request is rejected, [notify] is rejected with
    the error of the request and so is [runPuppeteerLogic], in the world the
    Notifier left: nothing of the workflow runs after the request, and the
    browser was never asked to close. *)
Theorem push_failure_fails_the_run (env : Env) (host : JS.Host) (args : Args)
    (browser : Browser) (page : Page) (agent : string) (timeout : Z)
    (w w1 : World) (first : Slot) (rest : list Slot) (e : JS.Error) :
  let firstDate := JS.new_Date host (Some (date first)) in
  let msg := earlierMessage host firstDate in
  let announced :=
    with_log (with_log w1 (datesMessage host args firstDate)) msg in
  run (signInAndQuery env args page agent timeout) w
  = (Resolved (first :: rest), w1) ->
  JS.Date_lt firstDate (currentDate host args) = true ->
  JS.falsy_str (n args) = false ->
  fst (env _ (pushRequest args msg agent) (with_log announced msg)) = Rejected e ->
  fst (run (notify env args msg agent) announced) = Rejected e
  /\ run (runPuppeteerLogic env host args browser page agent timeout) w
     = (Rejected e, snd (run (notify env args msg agent) announced))
  /\ closes (new_events w
               (snd (run (runPuppeteerLogic env host args browser page agent
                            timeout) w))) = 0%nat.
Proof.
  intros firstDate msg announced Hq Hlt Htoken Hpush.
  assert (N : run (notify env args msg agent) announced
              = (Rejected e,
                 snd (run (call env (pushRequest args msg agent))
                          (with_log announced msg)))).
  { unfold notify, userToken. rewrite Htoken. rewrite run_log_bind.
    rewrite run_call in *. cbn [fst snd]. now rewrite Hpush. }
  assert (R : run (runPuppeteerLogic env host args browser page agent timeout) w
              = (Rejected e, snd (run (notify env args msg agent) announced))).
  { unfold runPuppeteerLogic. rewrite run_bind, Hq. cbn [checkAvailableDates].
    fold firstDate. rewrite Hlt. fold msg.
    rewrite !run_bind_assoc. cbn beta. rewrite run_log_bind.
    rewrite !run_bind_assoc. cbn beta. rewrite run_log_bind.
    fold announced. rewrite run_bind, N. reflexivity. }
  split; [now rewrite N | split; [exact R |]].
  rewrite R. cbn [snd]. rewrite N. cbn [snd].
  pose proof (keeps_open_signInAndQuery env args page agent timeout w) as K.
  rewrite Hq in K. cbn [snd] in K.
  pose proof (run_extends (signInAndQuery env args page agent timeout) w) as X.
  rewrite Hq in X. cbn [snd] in X.
  rewrite (new_events_trans w w1); [| exact X |].
  - rewrite closes_app, K. rewrite run_call. cbn [snd]. unfold announced.
    cbn [with_log now trace]. list_events. reflexivity.
  - eapply extends_trans; [apply extends_with_log |].
    eapply extends_trans; [apply extends_with_log |].
    eapply extends_trans; [apply extends_with_log |].
    apply (run_extends (call env (pushRequest args msg agent))).
Qed.

Lemma push_failure_fails_the_run_witness :
  JS.Date_lt (JS.new_Date JS.utc (Some (date (MkSlot "2022-05-01"))))
             (currentDate JS.utc (sample_args (Some "token"))) = true
  /\ JS.falsy_str (n (sample_args (Some "token"))) = false
  /\ fst (run (runPuppeteerLogic (scenario_A (Rejected unauthorized)) JS.utc
                (sample_args (Some "token")) 1%nat 1%nat "HeadlessChrome" 5000)
              origin)
     = Rejected unauthorized
  /\ closes (new_events origin
       (snd (run (runPuppeteerLogic (scenario_A (Rejected unauthorized))
                               JS.utc (sample_args (Some "token")) 1%nat 1%nat
                               "HeadlessChrome" 5000) origin))) = 0%nat.
Proof.
  assert (Hlt : JS.Date_lt (JS.new_Date JS.utc (Some (date (MkSlot "2022-05-01"))))
                  (currentDate JS.utc (sample_args (Some "token"))) = true)
    by (vm_compute; reflexivity).
  assert (Htoken : JS.falsy_str (n (sample_args (Some "token"))) = false)
    by reflexivity.
  split; [exact Hlt |]. split; [exact Htoken |].
  assert (Hq : run (signInAndQuery (scenario_A (Rejected unauthorized))
                      (sample_args (Some "token")) 1%nat "HeadlessChrome" 5000)
                   origin
               = (Resolved [MkSlot "2022-05-01"],
                  snd (run (signInAndQuery (scenario_A (Rejected unauthorized))
                              (sample_args (Some "token")) 1%nat
                              "HeadlessChrome" 5000) origin)))
    by (vm_compute; reflexivity).
  pose proof (push_failure_fails_the_run (scenario_A (Rejected unauthorized))
                JS.utc (sample_args (Some "token")) 1%nat 1%nat
                "HeadlessChrome" 5000 origin
                _ (MkSlot "2022-05-01") [] unauthorized Hq Hlt Htoken) as H.
  assert (Hp : fst (scenario_A (Rejected unauthorized) unit
              (pushRequest (sample_args (Some "token"))
                 (earlierMessage JS.utc (JS.new_Date JS.utc (Some (date (MkSlot "2022-05-01")))))
                 "HeadlessChrome")
              (with_log
                 (with_log
                    (with_log
                       (snd (run (signInAndQuery (scenario_A (Rejected unauthorized))
                              (sample_args (Some "token")) 1%nat
                              "HeadlessChrome" 5000) origin))
                       (datesMessage JS.utc (sample_args (Some "token"))
                          (JS.new_Date JS.utc (Some (date (MkSlot "2022-05-01"))))))
                    (earlierMessage JS.utc (JS.new_Date JS.utc (Some (date (MkSlot "2022-05-01"))))))
                 (earlierMessage JS.utc (JS.new_Date JS.utc (Some (date (MkSlot "2022-05-01")))))))
            = Rejected unauthorized) by (vm_compute; reflexivity).
  destruct (H Hp) as (_ & R & C).
  split; [rewrite R; reflexivity | exact C].
Defined.


(** ** The browser session at the end of the workflow *)

Lemma closes_after (w w1 w' : World) :
  extends w w1 -> extends w1 w' -> closes (new_events w w1) = 0%nat ->
  closes (new_events w w') = closes (new_events w1 w').
Proof.
  intros X1 X2 K. now rewrite (new_events_trans w w1 w' X1 X2), closes_app, K.
Qed.

Lemma extends_app (w : World) (t : Z) (evs : list Event) :
  now w <= t -> extends w (MkWorld t (trace w ++ evs)%list).
Proof. intros H. split; simpl; eauto. Qed.

(** When sign-in or the query fails, the workflow fails with the same error
    and has not asked the browser to close. *)
Lemma workflow_failure_leaves_browser_open (env : Env) (host : JS.Host)
    (args : Args) (browser : Browser) (page : Page) (agent : string)
    (timeout : Z) (w w1 : World) (e : JS.Error) :
  run (signInAndQuery env args page agent timeout) w = (Rejected e, w1) ->
  run (runPuppeteerLogic env host args browser page agent timeout) w
  = (Rejected e, w1)
  /\ closes (new_events w w1) = 0%nat.
Proof.
  intros Hq. split.
  - unfold runPuppeteerLogic. now rewrite run_bind, Hq.
  - pose proof (keeps_open_signInAndQuery env args page agent timeout w) as K.
    now rewrite Hq in K.
Qed.

(** A workflow that resolves has asked the browser to close exactly once. *)
Lemma workflow_closes_once (env : Env) (host : JS.Host)
    (args : Args) (browser : Browser) (page : Page) (agent : string)
    (timeout : Z) (w w' : World) (v : JS.Value) :
  run (runPuppeteerLogic env host args browser page agent timeout) w
  = (Resolved v, w') ->
  closes (new_events w w') = 1%nat.
Proof.
  unfold runPuppeteerLogic. rewrite run_bind.
  pose proof (keeps_open_signInAndQuery env args page agent timeout w) as K.
  pose proof (run_extends (signInAndQuery env args page agent timeout) w) as X.
  destruct (run (signInAndQuery env args page agent timeout) w)
    as [[availableDates | e] w1]; [| discriminate].
  cbn [snd] in K, X.
  destruct availableDates as [| first rest]; cbn [checkAvailableDates].
  - run_eval. answer env; intros H; inversion H; subst.
    rewrite (closes_after w w1); [| exact X | | exact K].
    + list_events. reflexivity.
    + rewrite <- ?app_assoc. apply extends_app. lia.
  - destruct (JS.Date_lt (JS.new_Date host (Some (date first)))
                         (currentDate host args)).
    + unfold notify. destruct (JS.falsy_str (userToken args)).
      * run_eval. answer env; intros H; inversion H; subst.
        rewrite (closes_after w w1); [| exact X | | exact K].
        -- list_events. reflexivity.
        -- rewrite <- ?app_assoc. apply extends_app. lia.
      * run_eval. answer env; [answer env |]; intros H; inversion H; subst.
        rewrite (closes_after w w1); [| exact X | | exact K].
        -- list_events. reflexivity.
        -- rewrite <- ?app_assoc. apply extends_app. lia.
    + run_eval. answer env; intros H; inversion H; subst.
      rewrite (closes_after w w1); [| exact X | | exact K].
      * list_events. reflexivity.
      * rewrite <- ?app_assoc. apply extends_app. lia.
Qed.

(** C2 on a failure path.  Against a portal where no selector of the login
    form ever resolves, the run launches the browser, fails in the Locator,
    logs the error from the [catch] of [runLogic] and exits: the browser was
    asked to close zero times, where the claim says once. *)
Theorem failed_sign_in_leaves_browser_open :
  let evs := trace (snd (run (main (portal_env blank_portal) JS.utc
                                   (sample_args None)) origin)) in
  In (Req puppeteer_launch) (requests evs)
  /\ console_errors evs
     = [JS.error ("Could not find element for selectors: "
                  ++ stringify_selectors emailSelectors)]
  /\ runOutcome evs = Some Failed
  /\ closes evs = 0%nat
  /\ last evs (EvExit 0) = EvExit 11335.
Proof.
  cbv zeta.
  split; [vm_compute; left; reflexivity |].
  split; [vm_compute; reflexivity |].
  split; [vm_compute; reflexivity |].
  split; vm_compute; reflexivity.
Qed.

(** * Further properties of the script *)

(** ** The Condition Poller with a short timeout *)

(** With a timer delay of at most 100 ms (a timeout of 100 or less, zero and
    negative ones included, or one above 2147483647, which Node turns into
    1 ms) the predicate is still invoked, exactly once: a truthy result
    resolves the poller, a falsy one makes it reject with [Timed out] after
    the 100 ms pause, and an error is passed on. *)
Theorem waitForFunction_short_timeout (fn : Async JS.Value) (timeout : Z)
    (w : World) :
  JS.timer_delay timeout <= 100 ->
  run (waitForFunction fn timeout) w =
  match run fn w with
  | (Resolved v, w1) =>
      if JS.truthy v then (Resolved tt, w1)
      else (Rejected (JS.error "Timed out"), resumed w1)
  | (Rejected e, w1) => (Rejected e, w1)
  end.
Proof.
  intros H. rewrite waitForFunction_polling, polling_unfold.
  assert (E : (now w <? now w + JS.timer_delay timeout) = true).
  { apply Z.ltb_lt. pose proof (timer_delay_pos timeout). lia. }
  rewrite E. pose proof (run_extends fn w) as [Hfn _].
  destruct (run fn w) as [[v | e] w1]; [| reflexivity].
  destruct (JS.truthy v); [reflexivity |].
  rewrite polling_unfold.
  assert (E' : (now (resumed w1) <? now w + JS.timer_delay timeout) = false).
  { apply Z.ltb_ge. cbn [snd] in Hfn. unfold resumed. cbn [now]. lia. }
  now rewrite E'.
Qed.

Lemma waitForFunction_short_timeout_witness :
  JS.timer_delay 0 <= 100
  /\ run (waitForFunction crash_probe 0) origin
     = (Rejected (JS.error "Timed out"), resumed (ended crash_1)).
Proof.
  assert (H : JS.timer_delay 0 <= 100) by (vm_compute; discriminate).
  split; [exact H |].
  rewrite (waitForFunction_short_timeout crash_probe 0 origin H).
  reflexivity.
Defined.

(** ** The browser session in two runs *)

Lemma workflow_closes_once_witness :
  run (runPuppeteerLogic (scenario_A (Resolved tt)) JS.utc
         (sample_args (Some "token")) 1%nat 1%nat "HeadlessChrome" 5000) origin
  = (Resolved JS.VUndefined,
     snd (run (runPuppeteerLogic (scenario_A (Resolved tt)) JS.utc
                 (sample_args (Some "token")) 1%nat 1%nat "HeadlessChrome" 5000)
              origin))
  /\ closes (new_events origin
               (snd (run (runPuppeteerLogic (scenario_A (Resolved tt)) JS.utc
                            (sample_args (Some "token")) 1%nat 1%nat
                            "HeadlessChrome" 5000) origin))) = 1%nat.
Proof.
  assert (R : run (runPuppeteerLogic (scenario_A (Resolved tt)) JS.utc
                     (sample_args (Some "token")) 1%nat 1%nat "HeadlessChrome"
                     5000) origin
              = (Resolved JS.VUndefined,
                 snd (run (runPuppeteerLogic (scenario_A (Resolved tt)) JS.utc
                             (sample_args (Some "token")) 1%nat 1%nat
                             "HeadlessChrome" 5000) origin)))
    by (vm_compute; reflexivity).
  split; [exact R |].
  exact (workflow_closes_once _ _ _ _ _ _ _ _ _ _ R).
Defined.

Lemma workflow_failure_leaves_browser_open_witness :
  run (signInAndQuery (portal_env blank_portal) (sample_args None) 1%nat
         "HeadlessChrome" 5000) origin
  = (Rejected (JS.error ("Could not find element for selectors: "
                         ++ stringify_selectors emailSelectors)),
     snd (run (signInAndQuery (portal_env blank_portal) (sample_args None) 1%nat
                 "HeadlessChrome" 5000) origin))
  /\ closes (new_events origin
               (snd (run (signInAndQuery (portal_env blank_portal)
                            (sample_args None) 1%nat "HeadlessChrome" 5000)
                         origin))) = 0%nat.
Proof.
  assert (R : run (signInAndQuery (portal_env blank_portal) (sample_args None)
                     1%nat "HeadlessChrome" 5000) origin
              = (Rejected (JS.error ("Could not find element for selectors: "
                                     ++ stringify_selectors emailSelectors)),
                 snd (run (signInAndQuery (portal_env blank_portal)
                             (sample_args None) 1%nat "HeadlessChrome" 5000)
                          origin)))
    by (vm_compute; reflexivity).
  split; [exact R |].
  exact (proj2 (workflow_failure_leaves_browser_open (portal_env blank_portal)
                  JS.utc (sample_args None) 1%nat 1%nat "HeadlessChrome" 5000
                  origin _ _ R)).
Defined.

(** ** The Element Locator: what one strategy asks of the page *)

Definition lookup_of (ev : Event) : list (Root * string) :=
  match ev with
  | EvCall _ (root_waitForSelector root part _) _ _ => [(root, part)]
  | _ => []
  end.

(** The lookups that were started, with the root each one searched from. *)
Definition lookups (evs : list Event) : list (Root * string) :=
  flat_map lookup_of evs.

Definition descent_of (ev : Event) : list ElementHandle :=
  match ev with
  | EvCall _ (element_shadowRoot element) _ _ => [element]
  | _ => []
  end.

(** The elements whose shadow root was asked for. *)
Definition descents (evs : list Event) : list ElementHandle :=
  flat_map descent_of evs.

Definition rejection_of (ev : Event) : list JS.Error :=
  match ev with
  | EvCall _ _ _ (Rejected e) => [e]
  | _ => []
  end.

(** The errors the collaborators rejected calls with. *)
Definition rejections (evs : list Event) : list JS.Error :=
  flat_map rejection_of evs.

(** The world a call leaves. *)
Definition called (env : Env) {A} (c : Call A) (w : World) : World :=
  snd (run (call env c) w).

Lemma run_call_bind (env : Env) {A B} (c : Call A) (k : A -> Async B) (w : World) :
  run (bind (call env c) k) w =
  match fst (env A c w) with
  | Resolved a => run (k a) (called env c w)
  | Rejected e => (Rejected e, called env c w)
  end.
Proof.
  unfold called. rewrite run_bind, run_call. cbn [fst snd].
  destruct (fst (env A c w)); reflexivity.
Qed.

Lemma new_events_called (env : Env) {A} (c : Call A) (w : World) :
  new_events w (called env c w)
  = [EvCall (now w) c (snd (env A c w)) (fst (env A c w))].
Proof. unfold called. rewrite run_call. cbn [snd]. apply new_events_one. Qed.

Lemma extends_called (env : Env) {A} (c : Call A) (w : World) :
  extends w (called env c w).
Proof. apply (run_extends (call env c)). Qed.

(** What a computation adds after a call comes after that call. *)
Lemma new_events_after_call (env : Env) {A B} (c : Call A) (m : Async B)
    (w : World) :
  new_events w (snd (run m (called env c w)))
  = EvCall (now w) c (snd (env A c w)) (fst (env A c w))
    :: new_events (called env c w) (snd (run m (called env c w))).
Proof.
  rewrite (new_events_trans w (called env c w) _
             (extends_called env c w) (run_extends m _)).
  now rewrite new_events_called.
Qed.

Lemma lookups_cons (ev : Event) (evs : list Event) :
  lookups (ev :: evs) = (lookup_of ev ++ lookups evs)%list.
Proof. reflexivity. Qed.

Lemma descents_cons (ev : Event) (evs : list Event) :
  descents (ev :: evs) = (descent_of ev ++ descents evs)%list.
Proof. reflexivity. Qed.

Lemma waitForSelector_steps_lookups (env : Env) (all : list string)
    (frame : Page) (options : WaitOptions) (rest : list string) :
  forall element w,
    let done := run (waitForSelector_steps env all frame options element rest) w in
    let evs := new_events w (snd done) in
    exists pending,
      rest = (map snd (lookups evs) ++ pending)%list
      /\ match fst done with
         | Resolved _ =>
             pending = []
             /\ List.length (descents evs) = (List.length rest - 1)%nat
         | Rejected _ => True
         end
      /\ match lookups evs with
         | (root, _) :: _ => root = root_of frame element
         | [] => True
         end
      /\ (List.length (descents evs) <= List.length (lookups evs))%nat.
Proof.
  induction rest as [| part rest IH]; intros element w; cbn zeta.
  - cbn [waitForSelector_steps run ret ret_raw fst snd].
    rewrite new_events_refl. exists []. simpl. auto.
  - cbn [waitForSelector_steps]. rewrite run_call_bind.
    destruct (fst (env _ (root_waitForSelector (root_of frame element) part
                            options) w)) as [[el |] | e] eqn:E.
    + destruct rest as [| part' rest'].
      * cbn [waitForSelector_steps run ret ret_raw fst snd].
        rewrite new_events_called. exists []. simpl. auto.
      * rewrite run_call_bind.
        match goal with
        | |- context [env _ (element_shadowRoot el) ?w1] =>
            destruct (fst (env _ (element_shadowRoot el) w1))
              as [inner | e] eqn:E2;
            [ specialize (IH inner (called env (element_shadowRoot el) w1));
              rewrite (new_events_trans w w1 _
                         (extends_called env _ w)
                         (extends_trans _ _ _ (extends_called env _ _)
                            (run_extends _ _)))
            | cbn [fst snd];
              rewrite (new_events_trans w w1 _
                         (extends_called env _ w) (extends_called env _ _)) ]
        end.
        -- cbn zeta in IH.
           destruct IH as (pending & Hrest & Hres & Hroot & Hle).
           rewrite new_events_called, new_events_after_call.
           exists pending. cbn [app].
           rewrite !lookups_cons, !descents_cons.
           cbn [lookup_of descent_of app map snd List.length].
           repeat split.
           ++ now rewrite <- Hrest.
           ++ match goal with
              | |- match fst ?r with _ => _ end => destruct (fst r)
              end; [| exact I].
              destruct Hres as [Hp Hd]. split; [exact Hp |].
              rewrite Hd. cbn [List.length]. lia.
           ++ lia.
        -- cbn [fst snd].
           rewrite !new_events_called. exists (part' :: rest'). simpl. auto.
    + cbn [run throw throw_raw fst snd]. rewrite new_events_called.
      exists rest. simpl. auto.
    + cbn [fst snd]. rewrite new_events_called. exists rest. simpl. auto.
Qed.

(** One strategy looks its steps up in listed order, the first one from the
    frame, and stops at the first step that fails: the steps looked up are a
    prefix of the strategy.  A shadow root is only asked for after a lookup,
    and when the strategy resolves every step was looked up and the shadow
    root was asked for after every step but the last. *)
Theorem waitForSelector_lookups (env : Env) (selector : Selector) (frame : Page)
    (options : WaitOptions) (w : World) :
  let done := run (waitForSelector env selector frame options) w in
  let evs := new_events w (snd done) in
  exists pending,
    steps_of selector = (map snd (lookups evs) ++ pending)%list
    /\ match fst done with
       | Resolved _ =>
           pending = []
           /\ List.length (descents evs)
              = (List.length (steps_of selector) - 1)%nat
       | Rejected _ => True
       end
    /\ match lookups evs with
       | (root, _) :: _ => root = OnFrame frame
       | [] => True
       end
    /\ (List.length (descents evs) <= List.length (lookups evs))%nat.
Proof.
  cbn zeta. unfold waitForSelector.
  destruct (steps_of selector) as [| part rest] eqn:S.
  - cbn [run throw throw_raw fst snd]. rewrite new_events_refl.
    exists []. simpl. auto.
  - rewrite run_bind.
    pose proof (waitForSelector_steps_lookups env (part :: rest) frame options
                  (part :: rest) None w) as H.
    cbn zeta in H. destruct H as (pending & Hrest & Hres & Hroot & Hle).
    destruct (run (waitForSelector_steps env (part :: rest) frame options None
                     (part :: rest)) w) as [[[el |] | e] w1];
      cbn [run ret ret_raw throw throw_raw fst snd] in *;
      exists pending; auto.
Qed.

Lemma rejections_cons (ev : Event) (evs : list Event) :
  rejections (ev :: evs) = (rejection_of ev ++ rejections evs)%list.
Proof. reflexivity. Qed.

Lemma rejections_app (l1 l2 : list Event) :
  rejections (l1 ++ l2) = (rejections l1 ++ rejections l2)%list.
Proof. apply flat_map_app. Qed.

Lemma waitForSelector_steps_failures (env : Env) (all : list string)
    (frame : Page) (options : WaitOptions) (rest : list string) :
  forall element w,
    let done := run (waitForSelector_steps env all frame options element rest) w in
    match fst done with
    | Resolved None => rest = [] /\ element = None
    | Resolved (Some _) => True
    | Rejected e =>
        e = JS.error ("Could not find element: " ++ JS.join ">>" all)
        \/ In e (rejections (new_events w (snd done)))
    end.
Proof.
  induction rest as [| part rest IH]; intros element w; cbn zeta.
  - cbn [waitForSelector_steps run ret ret_raw fst snd].
    destruct element; auto.
  - cbn [waitForSelector_steps]. rewrite run_call_bind.
    destruct (fst (env _ (root_waitForSelector (root_of frame element) part
                            options) w)) as [[el |] | e] eqn:E.
    + destruct rest as [| part' rest'].
      * cbn [waitForSelector_steps run ret ret_raw fst snd]. exact I.
      * rewrite run_call_bind.
        match goal with
        | |- context [env _ (element_shadowRoot el) ?w1] =>
            destruct (fst (env _ (element_shadowRoot el) w1))
              as [inner | e] eqn:E2;
            [ specialize (IH inner (called env (element_shadowRoot el) w1));
              cbn zeta in IH;
              rewrite (new_events_trans w w1 _
                         (extends_called env _ w)
                         (extends_trans _ _ _ (extends_called env _ _)
                            (run_extends _ _)))
            | cbn [fst snd];
              rewrite (new_events_trans w w1 _
                         (extends_called env _ w) (extends_called env _ _)) ]
        end.
        -- rewrite new_events_after_call.
           match goal with
           | |- match fst ?r with _ => _ end =>
               destruct (fst r) as [[found |] | e]
           end.
           ++ exact I.
           ++ destruct IH as [IH _]. discriminate IH.
           ++ destruct IH as [IH | IH]; [left; exact IH | right].
              rewrite rejections_app, rejections_cons.
              apply in_or_app. right. apply in_or_app. right. exact IH.
        -- right. rewrite !new_events_called. cbn [app].
           rewrite !rejections_cons. rewrite E2.
           apply in_or_app. right. left. reflexivity.
    + cbn [run throw throw_raw fst snd]. left. reflexivity.
    + cbn [fst snd]. right. rewrite new_events_called.
      rewrite rejections_cons, E. left. reflexivity.
Qed.

(** A strategy fails in one of three ways only: at once, on having no step;
    with [Could not find element: ] and its steps joined by [>>], when a
    lookup resolves with null; or with the very error a lookup or a descent
    into a shadow root was rejected with.  The final check of the function
    (its message joins the steps by a bar) never fires. *)
Theorem waitForSelector_failures (env : Env) (selector : Selector) (frame : Page)
    (options : WaitOptions) (w w' : World) (e : JS.Error) :
  run (waitForSelector env selector frame options) w = (Rejected e, w') ->
  (steps_of selector = []
   /\ e = JS.error "Empty selector provided to waitForSelector" /\ w' = w)
  \/ (steps_of selector <> []
      /\ (e = JS.error ("Could not find element: "
                        ++ JS.join ">>" (steps_of selector))
          \/ In e (rejections (new_events w w')))).
Proof.
  unfold waitForSelector.
  destruct (steps_of selector) as [| part rest] eqn:S.
  - cbn [run throw throw_raw]. intros H. inversion H. left. auto.
  - rewrite run_bind.
    pose proof (waitForSelector_steps_failures env (part :: rest) frame options
                  (part :: rest) None w) as H.
    cbn zeta in H.
    destruct (run (waitForSelector_steps env (part :: rest) frame options None
                     (part :: rest)) w) as [[[el |] | e'] w1];
      cbn [run ret ret_raw throw throw_raw fst snd] in *; intros R.
    + discriminate R.
    + destruct H as [H _]. discriminate H.
    + inversion R; subst. right. split; [discriminate | exact H].
Qed.

Lemma waitForSelector_failures_witness :
  run (waitForSelector (portal_env blank_portal) (SelString "#user_email")
         1%nat (MkWaitOptions 5000 true)) origin
  = (Rejected (TimeoutError "selector #user_email"),
     snd (run (waitForSelector (portal_env blank_portal) (SelString "#user_email")
                 1%nat (MkWaitOptions 5000 true)) origin))
  /\ In (TimeoutError "selector #user_email")
        (rejections
           (new_events origin
              (snd (run (waitForSelector (portal_env blank_portal)
                           (SelString "#user_email") 1%nat
                           (MkWaitOptions 5000 true)) origin)))).
Proof.
  assert (R : run (waitForSelector (portal_env blank_portal)
                     (SelString "#user_email") 1%nat (MkWaitOptions 5000 true))
                  origin
              = (Rejected (TimeoutError "selector #user_email"),
                 snd (run (waitForSelector (portal_env blank_portal)
                             (SelString "#user_email") 1%nat
                             (MkWaitOptions 5000 true)) origin)))
    by (vm_compute; reflexivity).
  split; [exact R |].
  destruct (waitForSelector_failures _ _ _ _ _ _ _ R)
    as [(S & _) | (_ & [E | I])].
  - discriminate S.
  - vm_compute in E. discriminate E.
  - exact I.
Defined.

(** ** What a computation is confined to *)

(** Every event a computation adds satisfies [P]. *)
Definition confined (P : Event -> Prop) {A} (m : Async A) : Prop :=
  forall w, Forall P (new_events w (snd (run m w))).

Lemma confined_ret (P : Event -> Prop) {A} (a : A) : confined P (ret a).
Proof. intros w. simpl. rewrite new_events_refl. constructor. Qed.

Lemma confined_throw (P : Event -> Prop) {A} (e : JS.Error) :
  confined P (@throw A e).
Proof. intros w. simpl. rewrite new_events_refl. constructor. Qed.

Lemma confined_log (P : Event -> Prop) (msg : string) :
  (forall t, P (EvLog t msg)) -> confined P (log msg).
Proof.
  intros H w. rewrite run_log. cbn [snd]. rewrite new_events_one. auto.
Qed.

Lemma confined_call (P : Event -> Prop) (env : Env) {A} (c : Call A) :
  (forall t took r, P (EvCall t c took r)) -> confined P (call env c).
Proof.
  intros H w. rewrite run_call. cbn [snd]. rewrite new_events_one. auto.
Qed.

Lemma confined_bind (P : Event -> Prop) {A B} (m : Async A) (k : A -> Async B) :
  confined P m -> (forall a, confined P (k a)) -> confined P (bind m k).
Proof.
  intros Hm Hk w. rewrite run_bind.
  specialize (Hm w). pose proof (run_extends m w) as Em.
  destruct (run m w) as [[a | e] w1]; cbn [snd] in *; [| exact Hm].
  rewrite (new_events_trans w w1 _ Em (run_extends (k a) w1)).
  apply Forall_app. split; [exact Hm | apply Hk].
Qed.

Lemma confined_try_catch (P : Event -> Prop) {A} (m : Async A)
    (handler : JS.Error -> Async A) :
  confined P m -> (forall e, confined P (handler e)) ->
  confined P (try_catch m handler).
Proof.
  intros Hm Hh w. rewrite run_try_catch.
  specialize (Hm w). pose proof (run_extends m w) as Em.
  destruct (run m w) as [[a | e] w1]; cbn [snd] in *; [exact Hm |].
  rewrite (new_events_trans w w1 _ Em (run_extends (handler e) w1)).
  apply Forall_app. split; [exact Hm | apply Hh].
Qed.

Lemma new_events_resumed (w : World) : new_events w (resumed w) = [].
Proof. unfold new_events, resumed. simpl. apply (new_events_refl w). Qed.

Lemma extends_resumed (w : World) : extends w (resumed w).
Proof. split; simpl; [lia | exists []; now rewrite app_nil_r]. Qed.

Lemma confined_waitForFunction (P : Event -> Prop) (fn : Async JS.Value)
    (timeout : Z) :
  confined P fn -> confined P (waitForFunction fn timeout).
Proof.
  intros Hfn w. cbn [run waitForFunction]. unfold waitForFunction_raw.
  generalize (now w + JS.timer_delay timeout) as deadline.
  intros deadline. generalize (iterations deadline w) as fuel.
  intros fuel. revert w.
  induction fuel as [| fuel IH]; intros w; cbn [poll].
  - destruct (now w <? deadline); simpl; rewrite new_events_refl; constructor.
  - destruct (now w <? deadline);
      [| simpl; rewrite new_events_refl; constructor].
    specialize (Hfn w). pose proof (run_extends fn w) as Efn.
    destruct (run fn w) as [[v | e] w1]; cbn [snd] in *; [| exact Hfn].
    destruct (JS.truthy v); [exact Hfn |].
    rewrite sleep_100.
    rewrite (new_events_trans w (resumed w1) _
               (extends_trans _ _ _ Efn (extends_resumed w1))
               (poll_extends _ _ _ _)).
    apply Forall_app. split; [| apply IH].
    rewrite (new_events_trans w w1 _ Efn (extends_resumed w1)).
    rewrite new_events_resumed, app_nil_r. exact Hfn.
Qed.

(** Calls that act on the page or on one of its elements. *)
Definition on_page {A} (c : Call A) : bool :=
  match c with
  | puppeteer_launch => false
  | browser_userAgent _ => false
  | browser_newPage _ => false
  | browser_close _ => false
  | axios_get _ _ => false
  | axios_post _ _ _ => false
  | _ => true
  end.

(** The lines the workflow logs before it looks at the answer. *)
Definition sign_in_lines : list string :=
  ["Puppeteer initialized."; "Viewport set."; "Navigated to login page.";
   "Username input clicked."; "Username typed."; "Tabbed to password input.";
   "Password typed."; "Agreement checkbox ticked.";
   "Login button clicked. Navigating..."; "Fetching available dates..."].

(** The lines the workflow can log, given the host, the threshold option
    and the consulate option: no other argument shows in them. *)
Definition workflow_line (host : JS.Host) (threshold consul : option string)
    (msg : string) : Prop :=
  In msg sign_in_lines
  \/ msg = "There are no available dates for consulate with id " ++ JS.str consul
  \/ exists firstDate : JS.Date,
       msg = "There are available dates. Your current date is "
             ++ JS.Date_toString host (JS.new_Date host threshold)
             ++ ". The first available date is "
             ++ JS.Date_toString host firstDate
       \/ msg = "There is an earlier date available for the appointment! "
                ++ JS.toDateString host firstDate
       \/ msg = "No earlier date available yet. First available date: "
                ++ JS.toDateString host firstDate.

(** The steps of the workflow before the query (lines 156-249). *)
Definition signIn (env : Env) (args : Args) (page : Page) (timeout : Z)
  : Async unit :=
  log "Puppeteer initialized." ;;
  setViewport env page ;;
  gotoLogin env args page ;;
  clickUsername env page timeout ;;
  typeUsername env args page timeout ;;
  hitTab env page ;;
  typePassword env args page timeout ;;
  tickAgreement env page timeout ;;
  clickLogin env page timeout.

(** The address and the headers of the query (lines 257-268). *)
Definition queryUrl (args : Args) : string :=
  schedule args ++ "/appointment/days/" ++ JS.str (consularId args)
  ++ ".json?appointments[expedite]=false".

Definition queryHeaders (args : Args) (agent : string) (cookie : option string)
  : Headers :=
  [("Accept", Some "application/json, text/javascript, */*; q=0.01");
   ("Accept-Encoding", Some "gzip, deflate, br, zstd");
   ("Accept-Language", Some "en-US,en;q=0.9");
   ("Connection", Some "keep-alive");
   ("Cookie", cookie);
   ("Host", Some "ais.usvisa-info.com");
   ("Referer", Some (schedule args ++ "/appointment"));
   ("User-Agent", Some agent);
   ("X-Requested-With", Some "XMLHttpRequest")].

Lemma run_bind_cong {A B} (m : Async A) (k k' : A -> Async B) (w : World) :
  (forall a w1, run (k a) w1 = run (k' a) w1) ->
  run (bind m k) w = run (bind m k') w.
Proof.
  intros H. rewrite !run_bind. destruct (run m w) as [[a | e] w1]; auto.
Qed.

Lemma run_signInAndQuery (env : Env) (args : Args) (page : Page)
    (agent : string) (timeout : Z) (w : World) :
  run (signInAndQuery env args page agent timeout) w
  = run (signIn env args page timeout ;;
         fetchAvailableDates env args page agent) w.
Proof.
  unfold signInAndQuery, signIn. revert w.
  do 8 (intros w0; etransitivity; [| symmetry; apply run_bind_assoc];
        apply run_bind_cong; intros _; cbn beta; clear w0).
  reflexivity.
Qed.

Section Confined.

Variable P : Event -> Prop.
Variable env : Env.
Variable host : JS.Host.
Variable args : Args.

Hypothesis P_page :
  forall A (c : Call A) t took r, on_page c = true -> P (EvCall t c took r).

Hypothesis P_lines :
  forall t msg, workflow_line host (d args) (c args) msg -> P (EvLog t msg).

Lemma confined_page_call {A} (c : Call A) :
  on_page c = true -> confined P (call env c).
Proof. intros H. apply confined_call. intros. now apply P_page. Qed.

Lemma confined_sign_in_line (msg : string) :
  In msg sign_in_lines -> confined P (log msg).
Proof.
  intros H. apply confined_log. intros t. apply P_lines. now left.
Qed.

Lemma confined_waitForSelector_steps (all : list string) (frame : Page)
    (options : WaitOptions) (rest : list string) :
  forall element,
    confined P (waitForSelector_steps env all frame options element rest).
Proof.
  induction rest as [| part rest IH]; intros element;
    cbn [waitForSelector_steps].
  - apply confined_ret.
  - apply confined_bind; [now apply confined_page_call |].
    intros [el |]; [| apply confined_throw].
    destruct rest as [| part' rest']; [apply IH |].
    apply confined_bind; [now apply confined_page_call |].
    intros inner. apply IH.
Qed.

Lemma confined_waitForSelector (selector : Selector) (frame : Page)
    (options : WaitOptions) :
  confined P (waitForSelector env selector frame options).
Proof.
  unfold waitForSelector.
  destruct (steps_of selector) as [| part rest]; [apply confined_throw |].
  apply confined_bind; [apply confined_waitForSelector_steps |].
  intros [el |]; [apply confined_ret | apply confined_throw].
Qed.

Lemma confined_waitForSelectors (selectors : list Selector) (frame : Page)
    (options : WaitOptions) :
  confined P (waitForSelectors env selectors frame options).
Proof.
  unfold waitForSelectors. generalize selectors at 1 as all. intros all.
  induction selectors as [| selector rest IH]; cbn [waitForSelectors_from].
  - apply confined_throw.
  - apply confined_try_catch; [apply confined_waitForSelector |].
    intros _. exact IH.
Qed.

Lemma confined_scrollIntoViewIfNeeded (element : ElementHandle) (timeout : Z) :
  confined P (scrollIntoViewIfNeeded env element timeout).
Proof.
  unfold scrollIntoViewIfNeeded, waitForConnected, waitForInViewport,
    isConnected_handle, intersects.
  apply confined_bind.
  { apply confined_waitForFunction.
    apply confined_bind; [now apply confined_page_call | intros; apply confined_ret]. }
  intros _. apply confined_bind; [now apply confined_page_call |].
  intros [|]; [apply confined_ret |].
  apply confined_bind; [now apply confined_page_call | intros _].
  apply confined_waitForFunction.
  apply confined_bind; [now apply confined_page_call | intros; apply confined_ret].
Qed.

Lemma confined_typeInto (element : ElementHandle) (value : option string) :
  confined P (typeInto env element value).
Proof.
  unfold typeInto. apply confined_bind; [now apply confined_page_call |].
  intros ty. destruct (typeable_includes ty); [now apply confined_page_call |].
  apply confined_bind; [now apply confined_page_call | intros _].
  now apply confined_page_call.
Qed.

Lemma confined_locate {A} (selectors : list Selector) (page : Page)
    (options : WaitOptions) (timeout : Z) (k : ElementHandle -> Async A) :
  (forall element, confined P (k element)) ->
  confined P (element <- waitForSelectors env selectors page options ;;
              scrollIntoViewIfNeeded env element timeout ;;
              k element).
Proof.
  intros Hk.
  apply confined_bind; [apply confined_waitForSelectors | intros element].
  apply confined_bind; [apply confined_scrollIntoViewIfNeeded | intros _].
  apply Hk.
Qed.

Lemma confined_signIn (page : Page) (timeout : Z) :
  confined P (signIn env args page timeout).
Proof.
  unfold signIn.
  apply confined_bind; [apply confined_sign_in_line; simpl; tauto | intros _].
  apply confined_bind.
  { unfold setViewport. apply confined_bind;
      [now apply confined_page_call | intros _].
    apply confined_sign_in_line; simpl; tauto. }
  intros _. apply confined_bind.
  { unfold gotoLogin. apply confined_bind;
      [now apply confined_page_call | intros _].
    apply confined_sign_in_line; simpl; tauto. }
  intros _. apply confined_bind.
  { unfold clickUsername. apply confined_locate. intros element.
    apply confined_bind; [now apply confined_page_call | intros _].
    apply confined_sign_in_line; simpl; tauto. }
  intros _. apply confined_bind.
  { unfold typeUsername. apply confined_locate. intros element.
    apply confined_bind; [apply confined_typeInto | intros _].
    apply confined_sign_in_line; simpl; tauto. }
  intros _. apply confined_bind.
  { unfold hitTab. apply confined_bind;
      [now apply confined_page_call | intros _].
    apply confined_bind; [now apply confined_page_call | intros _].
    apply confined_sign_in_line; simpl; tauto. }
  intros _. apply confined_bind.
  { unfold typePassword. apply confined_locate. intros element.
    apply confined_bind; [apply confined_typeInto | intros _].
    apply confined_sign_in_line; simpl; tauto. }
  intros _. apply confined_bind.
  { unfold tickAgreement. apply confined_locate. intros element.
    apply confined_bind; [now apply confined_page_call | intros _].
    apply confined_sign_in_line; simpl; tauto. }
  intros _. unfold clickLogin. apply confined_locate. intros element.
  apply confined_bind; [now apply confined_page_call | intros _].
  apply confined_bind; [now apply confined_page_call | intros _].
  apply confined_sign_in_line; simpl; tauto.
Qed.

Hypothesis P_get :
  forall t url headers took r, P (EvCall t (axios_get url headers) took r).

Lemma confined_fetchAvailableDates (page : Page) (agent : string) :
  confined P (fetchAvailableDates env args page agent).
Proof.
  unfold fetchAvailableDates.
  apply confined_bind; [apply confined_sign_in_line; simpl; tauto | intros _].
  apply confined_bind; [now apply confined_page_call | intros cookies].
  apply confined_call. intros. apply P_get.
Qed.

Lemma confined_signInAndQuery (page : Page) (agent : string) (timeout : Z) :
  confined P (signInAndQuery env args page agent timeout).
Proof.
  intros w. rewrite run_signInAndQuery.
  apply (confined_bind P (signIn env args page timeout)
           (fun _ => fetchAvailableDates env args page agent)).
  - apply confined_signIn.
  - intros _. apply confined_fetchAvailableDates.
Qed.

Hypothesis P_close :
  forall t browser took r, P (EvCall t (browser_close browser) took r).

Hypothesis P_post :
  forall t url data headers took r,
    P (EvCall t (axios_post url data headers) took r).

Lemma confined_notify (firstDate : JS.Date) (agent : string) :
  confined P (notify env args (earlierMessage host firstDate) agent).
Proof.
  unfold notify. apply confined_bind.
  - apply confined_log. intros t. apply P_lines. right. right.
    exists firstDate. right. left. reflexivity.
  - intros _. destruct (JS.falsy_str (userToken args)); [apply confined_ret |].
    apply confined_call. intros. apply P_post.
Qed.

Lemma confined_checkAvailableDates (browser : Browser) (agent : string)
    (availableDates : list Slot) :
  confined P (checkAvailableDates env host args browser agent availableDates).
Proof.
  destruct availableDates as [| first rest]; cbn [checkAvailableDates].
  - apply confined_bind.
    { apply confined_log. intros t. apply P_lines. right. left. reflexivity. }
    intros _. apply confined_bind;
      [apply confined_call; intros; apply P_close | intros _; apply confined_ret].
  - apply confined_bind.
    { apply confined_log. intros t. apply P_lines. right. right.
      exists (JS.new_Date host (Some (date first))). left. reflexivity. }
    intros _. apply confined_bind; [| intros _; apply confined_ret].
    destruct (JS.Date_lt (JS.new_Date host (Some (date first)))
                         (currentDate host args)).
    + apply confined_bind; [| intros _; apply confined_notify].
      apply confined_log. intros t. apply P_lines. right. right.
      exists (JS.new_Date host (Some (date first))). right. left. reflexivity.
    + apply confined_log. intros t. apply P_lines. right. right.
      exists (JS.new_Date host (Some (date first))). right. right. reflexivity.
Qed.

Lemma confined_runPuppeteerLogic (browser : Browser) (page : Page)
    (agent : string) (timeout : Z) :
  confined P (runPuppeteerLogic env host args browser page agent timeout).
Proof.
  unfold runPuppeteerLogic.
  apply confined_bind; [apply confined_signInAndQuery | intros availableDates].
  apply confined_bind; [apply confined_checkAvailableDates | intros returned].
  destruct returned as [v |]; [apply confined_ret |].
  apply confined_bind;
    [apply confined_call; intros; apply P_close | intros _; apply confined_ret].
Qed.

End Confined.

Lemma logged_confined (line : string -> Prop) (evs : list Event) :
  Forall (fun ev => match ev with
                    | EvLog _ msg => line msg
                    | _ => True
                    end) evs ->
  Forall line (logged evs).
Proof.
  induction 1 as [| ev evs H _ IH]; [constructor |].
  destruct ev; simpl; auto.
Qed.

(** Whatever the portal does, every line the workflow logs is one of its
    ten fixed progress lines or one of its four messages about dates, which
    depend on the host, the threshold and the consulate only: the user
    name, the password, the token, the application id and the region are
    never logged by the workflow. *)
Theorem workflow_logs_only_its_lines (env : Env) (host : JS.Host) (args : Args)
    (browser : Browser) (page : Page) (agent : string) (timeout : Z)
    (w : World) :
  Forall (workflow_line host (d args) (c args))
         (logged (new_events w
                    (snd (run (runPuppeteerLogic env host args browser page
                                 agent timeout) w)))).
Proof.
  apply logged_confined.
  apply (confined_runPuppeteerLogic
           (fun ev => match ev with
                      | EvLog _ msg => workflow_line host (d args) (c args) msg
                      | _ => True
                      end) env host args); intros; auto.
Qed.

Lemma pushes_confined (evs : list Event) :
  Forall (fun ev => push_of ev = []) evs -> pushes evs = [].
Proof.
  induction 1 as [| ev evs H _ IH]; [reflexivity |].
  unfold pushes in *. simpl. now rewrite H, IH.
Qed.

Lemma signInAndQuery_pushes_nothing (env : Env) (args : Args) (page : Page)
    (agent : string) (timeout : Z) (w : World) :
  pushes (new_events w (snd (run (signInAndQuery env args page agent timeout) w)))
  = [].
Proof.
  apply pushes_confined.
  apply (confined_signInAndQuery (fun ev => push_of ev = []) env JS.utc args);
    try (intros; reflexivity).
  intros A c0 t took r H. destruct c0; try discriminate H; reflexivity.
Qed.

(** The workflow pushes at most one notification, and only the
    announcement for the first slot: exactly when sign-in and the query
    succeed, the answer is not empty, the date of its first slot is a valid
    date strictly before a valid threshold, and the token is neither missing
    nor empty.  In every other case nothing is pushed. *)
Theorem workflow_pushes (env : Env) (host : JS.Host) (args : Args)
    (browser : Browser) (page : Page) (agent : string) (timeout : Z)
    (w : World) :
  pushes (new_events w
            (snd (run (runPuppeteerLogic env host args browser page agent
                         timeout) w)))
  = match run (signInAndQuery env args page agent timeout) w with
    | (Resolved (first :: _), _) =>
        let firstDate := JS.new_Date host (Some (date first)) in
        if JS.Date_lt firstDate (currentDate host args)
           && negb (JS.falsy_str (n args))
        then [MkPushData "US Visa Appointment Notification" "note"
                (earlierMessage host firstDate)]
        else []
    | _ => []
    end.
Proof.
  unfold runPuppeteerLogic. rewrite run_bind.
  pose proof (signInAndQuery_pushes_nothing env args page agent timeout w) as K.
  pose proof (run_extends (signInAndQuery env args page agent timeout) w) as X.
  destruct (run (signInAndQuery env args page agent timeout) w)
    as [[availableDates | e] w1]; cbn [snd] in K, X |- *; [| exact K].
  rewrite (new_events_trans w w1 _ X (run_extends _ w1)), pushes_app, K.
  cbn [app].
  destruct availableDates as [| first rest]; cbn [checkAvailableDates].
  - run_eval. answer env; list_events; reflexivity.
  - cbv zeta.
    destruct (JS.Date_lt (JS.new_Date host (Some (date first)))
                         (currentDate host args)); cbn [andb].
    + unfold notify, userToken. destruct (JS.falsy_str (n args)); cbn [negb].
      * run_eval. answer env; list_events; reflexivity.
      * run_eval. answer env; [answer env |]; list_events; reflexivity.
    + run_eval. answer env; list_events; reflexivity.
Qed.

Definition get_of (ev : Event) : list (string * Headers) :=
  match ev with
  | EvCall _ (axios_get url headers) _ _ => [(url, headers)]
  | _ => []
  end.

(** The queries that were sent: address and headers. *)
Definition gets (evs : list Event) : list (string * Headers) :=
  flat_map get_of evs.

Lemma gets_app (l1 l2 : list Event) :
  gets (l1 ++ l2) = (gets l1 ++ gets l2)%list.
Proof. apply flat_map_app. Qed.

Lemma gets_confined (evs : list Event) :
  Forall (fun ev => get_of ev = []) evs -> gets evs = [].
Proof.
  induction 1 as [| ev evs H _ IH]; [reflexivity |].
  unfold gets in *. simpl. now rewrite H, IH.
Qed.

Lemma page_calls_are_no_query :
  forall A (c0 : Call A) t took r,
    on_page c0 = true -> get_of (EvCall t c0 took r) = [].
Proof. intros A c0 t took r H. destruct c0; try discriminate H; reflexivity. Qed.

(** The queries of a workflow, read off its run: none when sign-in fails or
    [page.cookies()] is rejected, otherwise the one query, whose [Cookie]
    header is computed from the cookies [page.cookies()] resolved with. *)
Lemma workflow_gets (env : Env) (host : JS.Host) (args : Args)
    (browser : Browser) (page : Page) (agent : string) (timeout : Z)
    (w : World) :
  gets (new_events w
          (snd (run (runPuppeteerLogic env host args browser page agent timeout) w)))
  = match run (signIn env args page timeout) w with
    | (Resolved _, w1) =>
        match fst (env _ (page_cookies page)
                       (with_log w1 "Fetching available dates...")) with
        | Resolved cookies =>
            [(queryUrl args, queryHeaders args agent (sessionCookie cookies))]
        | Rejected _ => []
        end
    | (Rejected _, _) => []
    end.
Proof.
  unfold runPuppeteerLogic.
  rewrite run_bind, run_signInAndQuery, run_bind.
  pose proof (gets_confined _
                (confined_signIn (fun ev => get_of ev = []) env JS.utc args
                   page_calls_are_no_query ltac:(intros; reflexivity)
                   page timeout w)) as K.
  pose proof (run_extends (signIn env args page timeout) w) as X.
  destruct (run (signIn env args page timeout) w) as [[[] | e] w1];
    cbn [snd] in K, X |- *; [| exact K].
  unfold fetchAvailableDates.
  rewrite run_log_bind, run_call_bind.
  set (w2 := with_log w1 "Fetching available dates...").
  assert (X2 : extends w w2).
  { eapply extends_trans; [exact X | apply extends_with_log]. }
  assert (K2 : gets (new_events w w2) = []).
  { rewrite (new_events_trans w w1 w2 X (extends_with_log _ _)), gets_app, K.
    unfold w2. now rewrite new_events_with_log. }
  destruct (fst (env _ (page_cookies page) w2)) as [cookies | e] eqn:C.
  - set (w3 := called env (page_cookies page) w2).
    assert (X3 : extends w w3).
    { eapply extends_trans; [exact X2 | apply extends_called]. }
    assert (K3 : gets (new_events w w3) = []).
    { rewrite (new_events_trans w w2 w3 X2 (extends_called _ _ _)), gets_app, K2.
      unfold w3. now rewrite new_events_called. }
    fold (queryUrl args). fold (queryHeaders args agent (sessionCookie cookies)).
    set (q := axios_get (queryUrl args)
                (queryHeaders args agent (sessionCookie cookies))).
    assert (K4 : gets (new_events w (called env q w3))
                 = [(queryUrl args,
                     queryHeaders args agent (sessionCookie cookies))]).
    { rewrite (new_events_trans w w3 _ X3 (extends_called _ _ _)), gets_app, K3.
      now rewrite new_events_called. }
    destruct (run (call env q) w3) as [[availableDates | e] w4] eqn:R;
      (assert (E4 : w4 = called env q w3) by (unfold called; now rewrite R));
      subst w4; cbn [fst snd]; [| exact K4].
    rewrite (new_events_trans w (called env q w3) _
               (extends_trans _ _ _ X3 (extends_called _ _ _))
               (run_extends _ _)).
    rewrite gets_app, K4.
    rewrite (gets_confined
               (new_events (called env q w3) _)); [reflexivity |].
    apply (confined_bind (fun ev => get_of ev = [])).
    + apply (confined_checkAvailableDates (fun ev => get_of ev = []) env host
               args); intros; reflexivity.
    + intros [v |]; [apply confined_ret |].
      apply confined_bind; [| intros; apply confined_ret].
      apply confined_call. intros; reflexivity.
  - cbn [snd].
    rewrite (new_events_trans w w2 _ X2 (extends_called _ _ _)), gets_app, K2.
    now rewrite new_events_called.
Qed.

(** The workflow sends the query at most once and never repeats it.  When
    the steps of sign-in (lines 156-249) fail it sends none; when they
    succeed and [page.cookies()], asked right after the line
    [Fetching available dates...], is rejected, it sends none; when
    [page.cookies()] resolves with [cookies] it sends exactly one query, to
    the days address of the schedule, with the headers of lines 258-268
    whose [Cookie] is [sessionCookie cookies], whatever the query is
    answered and whatever the workflow does afterwards. *)
Theorem workflow_queries_once (env : Env) (host : JS.Host) (args : Args)
    (browser : Browser) (page : Page) (agent : string) (timeout : Z)
    (w : World) :
  let evs :=
    new_events w
      (snd (run (runPuppeteerLogic env host args browser page agent timeout) w)) in
  match run (signIn env args page timeout) w with
  | (Rejected _, _) => gets evs = []
  | (Resolved _, w1) =>
      match fst (env _ (page_cookies page)
                     (with_log w1 "Fetching available dates...")) with
      | Rejected _ => gets evs = []
      | Resolved cookies =>
          gets evs
          = [(queryUrl args, queryHeaders args agent (sessionCookie cookies))]
      end
  end.
Proof.
  cbv zeta. rewrite workflow_gets.
  destruct (run (signIn env args page timeout) w) as [[[] | e] w1];
    [| reflexivity].
  destruct (fst (env _ (page_cookies page)
                     (with_log w1 "Fetching available dates...")));
    reflexivity.
Qed.

(** ** Scrolling *)

Lemma scrolls_app (l1 l2 : list Event) :
  scrolls (l1 ++ l2) = (scrolls l1 ++ scrolls l2)%list.
Proof. apply flat_map_app. Qed.

Lemma scrolls_confined (evs : list Event) :
  Forall (fun ev => scroll_of ev = []) evs -> scrolls evs = [].
Proof.
  induction 1 as [| ev evs H _ IH]; [reflexivity |].
  unfold scrolls in *. simpl. now rewrite H, IH.
Qed.

Lemma polls_without_scrolling (env : Env) (element : ElementHandle)
    (timeout : Z) (w : World) :
  scrolls (new_events w (snd (run (waitForConnected env element timeout) w))) = []
  /\ scrolls (new_events w (snd (run (waitForInViewport env element timeout) w)))
     = [].
Proof.
  split; apply scrolls_confined;
    apply confined_waitForFunction;
    (apply confined_bind;
     [apply confined_call; intros; reflexivity | intros; apply confined_ret]).
Qed.

(** One call of [scrollIntoViewIfNeeded] requests at most one scroll, the
    one to the centre with behavior [auto]: neither the attachment poll nor
    the polling that follows the scroll scrolls again. *)
Theorem scrollIntoViewIfNeeded_scrolls_at_most_once (env : Env)
    (element : ElementHandle) (timeout : Z) (w : World) :
  let evs :=
    new_events w (snd (run (scrollIntoViewIfNeeded env element timeout) w)) in
  scrolls evs = []
  \/ scrolls evs = [ScrollIntoView "center" "center" "auto"].
Proof.
  cbv zeta. unfold scrollIntoViewIfNeeded. rewrite run_bind.
  pose proof (proj1 (polls_without_scrolling env element timeout w)) as K0.
  pose proof (run_extends (waitForConnected env element timeout) w) as X0.
  destruct (run (waitForConnected env element timeout) w) as [[[] | e] w0];
    cbn [snd] in K0, X0 |- *; [| left; exact K0].
  rewrite run_call_bind.
  set (check := element_isIntersectingViewport element 0).
  assert (X1 : extends w (called env check w0)).
  { eapply extends_trans; [exact X0 | apply extends_called]. }
  assert (K1 : scrolls (new_events w (called env check w0)) = []).
  { rewrite (new_events_trans w w0 _ X0 (extends_called _ _ _)), scrolls_app, K0.
    now rewrite new_events_called. }
  destruct (fst (env _ check w0)) as [[|] | e]; cbn [run ret ret_raw fst snd];
    [left; exact K1 | | left; exact K1].
  rewrite run_call_bind.
  set (scroll := element_evaluate element [ScrollIntoView "center" "center" "auto"]).
  assert (X2 : extends w (called env scroll (called env check w0))).
  { eapply extends_trans; [exact X1 | apply extends_called]. }
  assert (K2 : scrolls (new_events w (called env scroll (called env check w0)))
               = [ScrollIntoView "center" "center" "auto"]).
  { rewrite (new_events_trans w _ _ X1 (extends_called _ _ _)), scrolls_app, K1.
    now rewrite new_events_called. }
  right.
  destruct (fst (env _ scroll (called env check w0))) as [[] | e];
    cbn [fst snd]; [| exact K2].
  rewrite (new_events_trans w _ _ X2 (run_extends _ _)), scrolls_app, K2.
  now rewrite (proj2 (polls_without_scrolling env element timeout _)).
Qed.

(** ** The session cookie of the query *)

(** [headers[name]] of a headers object, [None] standing for a missing or
    an undefined one. *)
Definition header (name : string) (headers : Headers) : option string :=
  match find (fun h => String.eqb (fst h) name) headers with
  | Some (_, value) => value
  | None => None
  end.

Definition is_session (cookie : Cookie) : bool :=
  String.eqb (cookie_name cookie) "_yatri_session".

Lemma sessionCookie_find (cookies : list Cookie) :
  sessionCookie cookies
  = match find is_session cookies with
    | Some cookie => Some ("_yatri_session=" ++ cookie_value cookie)
    | None => None
    end.
Proof.
  unfold sessionCookie, is_session.
  induction cookies as [| cookie rest IH]; [reflexivity |].
  cbn [filter find].
  destruct (String.eqb (cookie_name cookie) "_yatri_session") eqn:E;
    [| exact IH].
  apply String.eqb_eq in E. now rewrite E.
Qed.

(** Once the steps of sign-in have succeeded and [page.cookies()] has
    resolved with [cookies], the workflow sends one query and the [Cookie]
    header of that query is made of the first cookie of [cookies] that is
    named [_yatri_session], as [_yatri_session=] followed by its value; it
    is undefined when [cookies] holds no cookie of that name. *)
Theorem query_carries_the_session_cookie (env : Env) (host : JS.Host)
    (args : Args) (browser : Browser) (page : Page) (agent : string)
    (timeout : Z) (w w1 : World) (cookies : list Cookie) :
  run (signIn env args page timeout) w = (Resolved tt, w1) ->
  fst (env _ (page_cookies page) (with_log w1 "Fetching available dates..."))
  = Resolved cookies ->
  map (fun query => header "Cookie" (snd query))
      (gets (new_events w
               (snd (run (runPuppeteerLogic env host args browser page agent
                            timeout) w))))
  = [match find is_session cookies with
     | Some cookie => Some ("_yatri_session=" ++ cookie_value cookie)
     | None => None
     end].
Proof.
  intros S C. rewrite workflow_gets, S, C.
  cbn [map snd]. rewrite <- sessionCookie_find. reflexivity.
Qed.

Lemma query_carries_the_session_cookie_witness :
  run (signIn (scenario_A (Resolved tt)) (sample_args None) 1%nat 5000) origin
  = (Resolved tt,
     snd (run (signIn (scenario_A (Resolved tt)) (sample_args None) 1%nat 5000)
              origin))
  /\ fst (scenario_A (Resolved tt) _ (page_cookies 1%nat)
            (with_log
               (snd (run (signIn (scenario_A (Resolved tt)) (sample_args None)
                            1%nat 5000) origin))
               "Fetching available dates..."))
     = Resolved [MkCookie "_ga" "GA1"; MkCookie "_yatri_session" "abc"]
  /\ map (fun query => header "Cookie" (snd query))
         (gets (new_events origin
                  (snd (run (runPuppeteerLogic (scenario_A (Resolved tt)) JS.utc
                               (sample_args None) 1%nat 1%nat "HeadlessChrome"
                               5000) origin))))
     = [Some "_yatri_session=abc"].
Proof.
  assert (S : run (signIn (scenario_A (Resolved tt)) (sample_args None) 1%nat
                     5000) origin
              = (Resolved tt,
                 snd (run (signIn (scenario_A (Resolved tt)) (sample_args None)
                             1%nat 5000) origin)))
    by (vm_compute; reflexivity).
  assert (C : fst (scenario_A (Resolved tt) _ (page_cookies 1%nat)
                     (with_log
                        (snd (run (signIn (scenario_A (Resolved tt))
                                     (sample_args None) 1%nat 5000) origin))
                        "Fetching available dates..."))
              = Resolved [MkCookie "_ga" "GA1"; MkCookie "_yatri_session" "abc"])
    by reflexivity.
  split; [exact S |]. split; [exact C |].
  exact (query_carries_the_session_cookie (scenario_A (Resolved tt)) JS.utc
           (sample_args None) 1%nat 1%nat "HeadlessChrome" 5000 origin _ _ S C).
Defined.

(** ** The supervisor *)

(** Lines 143-151: the browser, its user agent and the page, with the two
    default timeouts set. *)
Definition launchBrowser (env : Env) : Async (Browser * string * Page) :=
  browser <- call env puppeteer_launch ;;
  agent <- call env (browser_userAgent browser) ;;
  page <- call env (browser_newPage browser) ;;
  set (setDefaultTimeout page 5000) ;;
  set (setDefaultNavigationTimeout page 60000) ;;
  ret (browser, agent, page).

(** The error of the supervisor's timer. *)
Definition timedOut : JS.Error := JS.error "Script timed out. Terminating...".

(** The world once [e] went to [console.error]. *)
Definition with_error (w : World) (e : JS.Error) : World :=
  MkWorld (now w) (trace w ++ [EvConsoleError (now w) e])%list.

Lemma run_runLogic (env : Env) (host : JS.Host) (args : Args) (w : World) :
  run (runLogic env host args) w =
  match run (launchBrowser env) (with_log w "Initializing Puppeteer...") with
  | (Resolved (browser, agent, page), w3) =>
      match run (race (now w + 60000) timedOut
                      (runPuppeteerLogic env host args browser page agent 5000))
                w3 with
      | (Resolved _, w4) => (Resolved tt, w4)
      | (Rejected e, w4) => (Resolved tt, with_error w4 e)
      end
  | (Rejected e, w3) => (Resolved tt, with_error w3 e)
  end.
Proof.
  unfold runLogic, launchBrowser. rewrite run_log_bind.
  rewrite run_bind. cbn [run clock clock_raw with_log now].
  rewrite run_try_catch.
  change (JS.timer_delay 60000) with 60000.
  change (JS.error "Script timed out. Terminating...") with timedOut.
  rewrite !run_call_bind.
  destruct (fst (env _ puppeteer_launch _)) as [browser | e]; [| reflexivity].
  rewrite !run_call_bind.
  destruct (fst (env _ (browser_userAgent browser) _)) as [agent | e];
    [| reflexivity].
  rewrite !run_call_bind.
  destruct (fst (env _ (browser_newPage browser) _)) as [page | e];
    [| reflexivity].
  cbn [run bind bind_raw set emit ret ret_raw fst snd].
  unfold bind_raw. cbn [fst snd].
  match goal with
  | |- context [run (race ?dl ?e ?m) ?w3] =>
      destruct (run (race dl e m) w3) as [[v | e'] w4]
  end; reflexivity.
Qed.

Lemma console_errors_app (l1 l2 : list Event) :
  console_errors (l1 ++ l2) = (console_errors l1 ++ console_errors l2)%list.
Proof. apply flat_map_app. Qed.

(** An event that is not a line of [console.error]. *)
Definition not_an_error (ev : Event) : Prop :=
  match ev with
  | EvConsoleError _ _ => False
  | _ => True
  end.

Lemma console_errors_confined (evs : list Event) :
  Forall not_an_error evs -> console_errors evs = [].
Proof.
  induction 1 as [| ev evs H _ IH]; [reflexivity |].
  destruct ev; simpl in *; try exact IH. contradiction.
Qed.

Lemma confined_set (P : Event -> Prop) (s : Setting) :
  (forall t, P (EvSet t s)) -> confined P (set s).
Proof.
  intros H w. cbn [run set emit snd]. rewrite new_events_one. auto.
Qed.

Lemma launchBrowser_logs_no_error (env : Env) (w : World) :
  console_errors (new_events w (snd (run (launchBrowser env) w))) = [].
Proof.
  apply console_errors_confined. unfold launchBrowser.
  repeat first
    [ apply confined_ret
    | apply confined_set; intros; exact I
    | apply confined_call; intros; exact I
    | apply confined_bind; [| intros ?] ].
Qed.

Lemma workflow_logs_no_error (env : Env) (host : JS.Host) (args : Args)
    (browser : Browser) (page : Page) (agent : string) (timeout : Z)
    (w : World) :
  Forall not_an_error
    (new_events w
       (snd (run (runPuppeteerLogic env host args browser page agent timeout) w))).
Proof.
  apply (confined_runPuppeteerLogic not_an_error env host args);
    intros; exact I.
Qed.

(** Once the browser is set up within the minute, the run is over at the
    latest 60000 ms after it began, however long the workflow would take. *)
Theorem runLogic_ends_by_the_deadline (env : Env) (host : JS.Host) (args : Args)
    (w w3 : World) (browser : Browser) (agent : string) (page : Page) :
  run (launchBrowser env) (with_log w "Initializing Puppeteer...")
  = (Resolved (browser, agent, page), w3) ->
  now w3 <= now w + 60000 ->
  now (snd (run (runLogic env host args) w)) <= now w + 60000.
Proof.
  intros HL Hready. rewrite run_runLogic, HL.
  cbn [run race]. unfold race_raw.
  destruct (run (runPuppeteerLogic env host args browser page agent 5000) w3)
    as [r w4].
  destruct (now w4 <? now w + 60000) eqn:E.
  - apply Z.ltb_lt in E. destruct r; cbn [snd with_error now]; lia.
  - cbn [snd with_error cut now]. lia.
Qed.


Definition is_goto {A} (c : Call A) : bool :=
  match c with
  | page_goto _ _ _ => true
  | _ => false
  end.

(** A portal with no open day whose login page takes [delay] ms to load. *)
Definition slow_portal (delay : N) : Env :=
  fun A c w =>
    if is_goto c
    then (fst (portal_env (open_portal [] (Resolved tt)) A c w), delay)
    else portal_env (open_portal [] (Resolved tt)) A c w.

(** The world in which the browser of a test environment is ready. *)
Definition ready (env : Env) : World :=
  snd (run (launchBrowser env) (with_log origin "Initializing Puppeteer...")).

Lemma runLogic_ends_by_the_deadline_witness :
  run (launchBrowser (scenario_A (Resolved tt)))
      (with_log origin "Initializing Puppeteer...")
  = (Resolved (1%nat, "HeadlessChrome", 1%nat), ready (scenario_A (Resolved tt)))
  /\ now (ready (scenario_A (Resolved tt))) <= now origin + 60000
  /\ now (snd (run (runLogic (scenario_A (Resolved tt)) JS.utc
                      (sample_args (Some "token"))) origin))
     <= now origin + 60000.
Proof.
  assert (HL : run (launchBrowser (scenario_A (Resolved tt)))
                   (with_log origin "Initializing Puppeteer...")
               = (Resolved (1%nat, "HeadlessChrome", 1%nat),
                  ready (scenario_A (Resolved tt))))
    by (vm_compute; reflexivity).
  assert (HR : now (ready (scenario_A (Resolved tt))) <= now origin + 60000)
    by (vm_compute; discriminate).
  split; [exact HL |]. split; [exact HR |].
  exact (runLogic_ends_by_the_deadline (scenario_A (Resolved tt)) JS.utc
           (sample_args (Some "token")) origin _ _ _ _ HL HR).
Defined.


(** ** The requests of the Condition Poller *)

Lemma requests_app (l1 l2 : list Event) :
  requests (l1 ++ l2) = (requests l1 ++ requests l2)%list.
Proof. apply flat_map_app. Qed.

(** The requests of the loop, by the iterations that fit before the
    deadline. *)
Lemma poll_requests_bounded (fn : Async JS.Value) (deadline : Z) (c : nat) :
  (forall w0,
      (List.length (requests (new_events w0 (snd (run fn w0)))) <= c)%nat) ->
  forall fuel w,
    Z.of_nat (List.length (requests (new_events w (snd (poll fuel fn deadline w)))))
    <= Z.of_nat c * Z.max 0 ((deadline - now w + 99) / 100).
Proof.
  intros Hfn.
  assert (Hnone : forall w,
             Z.of_nat (List.length (requests (new_events w w)))
             <= Z.of_nat c * Z.max 0 ((deadline - now w + 99) / 100)).
  { intros w. rewrite new_events_refl. cbn [requests flat_map List.length].
    apply Z.mul_nonneg_nonneg; lia. }
  induction fuel as [| k IH]; intros w; cbn [poll].
  - destruct (now w <? deadline); cbn [snd]; apply Hnone.
  - destruct (now w <? deadline) eqn:E; [| cbn [snd]; apply Hnone].
    apply Z.ltb_lt in E.
    assert (B : 1 <= (deadline - now w + 99) / 100)
      by (apply Z.div_le_lower_bound; lia).
    pose proof (Hfn w) as H1. pose proof (run_extends fn w) as X.
    destruct (run fn w) as [[v | e] w1]; cbn [snd] in H1, X |- *; [| nia].
    destruct (JS.truthy v); cbn [snd]; [nia |].
    rewrite sleep_100.
    assert (Xr : extends w (resumed w1)).
    { eapply extends_trans; [exact X | apply extends_resumed]. }
    rewrite (new_events_trans w (resumed w1) _ Xr (poll_extends _ _ _ _)).
    rewrite (new_events_trans w w1 (resumed w1) X (extends_resumed w1)).
    rewrite new_events_resumed, app_nil_r.
    rewrite requests_app, length_app, Nat2Z.inj_add.
    specialize (IH (resumed w1)).
    assert (L : (deadline - now (resumed w1) + 99) / 100
                <= (deadline - now w + 99) / 100 - 1).
    { destruct X as [Hnow _]. unfold resumed. cbn [now].
      replace ((deadline - now w + 99) / 100 - 1)
        with ((deadline - now w + 99 + -1 * 100) / 100)
        by (rewrite Z.div_add by lia; lia).
      apply Z.div_le_mono; lia. }
    nia.
Qed.

(** The poller asks a bounded number of times.  When one invocation of the
    predicate makes at most [c] requests, a call of [waitForFunction] makes
    at most [c] requests for every 100 ms of the timer's delay, rounded up:
    invocations only begin before the timer fires and are at least 100 ms
    apart.  With the delay of 5000 ms the viewport check is asked at most
    50 times. *)
Theorem waitForFunction_requests_bounded (fn : Async JS.Value) (timeout : Z)
    (c : nat) (w : World) :
  (forall w0,
      (List.length (requests (new_events w0 (snd (run fn w0)))) <= c)%nat) ->
  Z.of_nat (List.length
              (requests (new_events w (snd (run (waitForFunction fn timeout) w)))))
  <= Z.of_nat c * ((JS.timer_delay timeout + 99) / 100).
Proof.
  intros Hfn. cbn [run waitForFunction]. unfold waitForFunction_raw.
  pose proof (poll_requests_bounded fn (now w + JS.timer_delay timeout) c Hfn
                (iterations (now w + JS.timer_delay timeout) w) w) as H.
  replace (now w + JS.timer_delay timeout - now w + 99)
    with (JS.timer_delay timeout + 99) in H by lia.
  pose proof (timer_delay_pos timeout).
  assert (0 <= (JS.timer_delay timeout + 99) / 100)
    by (apply Z.div_pos; lia).
  rewrite Z.max_r in H by lia. exact H.
Qed.

(** One viewport check is one request. *)
Lemma intersects_asks_once (env : Env) (element : ElementHandle) (w : World) :
  (List.length (requests (new_events w (snd (run (intersects env element) w))))
   <= 1)%nat.
Proof.
  unfold intersects. rewrite run_call_bind.
  destruct (fst (env _ (element_isIntersectingViewport element 0) w));
    cbn [run ret ret_raw snd]; rewrite new_events_called; apply le_n.
Qed.

Lemma waitForFunction_requests_bounded_witness :
  (forall w0,
      (List.length (requests (new_events w0 (snd (run crash_probe w0)))) <= 1)%nat)
  /\ Z.of_nat (List.length
                 (requests (new_events origin
                              (snd (run (waitForFunction crash_probe 5000)
                                        origin)))))
     <= Z.of_nat 1 * ((JS.timer_delay 5000 + 99) / 100).
Proof.
  assert (H : forall w0,
             (List.length (requests (new_events w0 (snd (run crash_probe w0))))
              <= 1)%nat)
    by (intros w0; apply intersects_asks_once).
  split; [exact H |].
  exact (waitForFunction_requests_bounded crash_probe 5000 1 origin H).
Defined.

(** ** A refused notification and the end of the run *)

Lemma keeps_open_set (s : Setting) : keeps_open (set s).
Proof. intros w. cbn [run set emit snd]. now rewrite new_events_one. Qed.

Lemma keeps_open_launchBrowser (env : Env) : keeps_open (launchBrowser env).
Proof.
  unfold launchBrowser.
  repeat first
    [ apply keeps_open_ret
    | apply keeps_open_set
    | apply keeps_open_call; intros; reflexivity
    | apply keeps_open_bind; [| intros ?] ].
Qed.


